(** * The relay server of a TURN implementation: allocation registry,
      permissions, channel bindings and the relay loop.

    Shallow embedding of [internal/relay/relay-server.go] (package
    [relayServer]).  Go's [int], [uint16] and [uint32] values are only
    stored and compared by the code, never computed with, so they are
    integers [Z].  The package-level slice [servers] is an explicit list
    threaded through every operation; a [*server] pointer is the index of
    the server in that list (the slice is only ever appended to, so an
    index names the same server for ever).  Pointers to addresses,
    five-tuples and permissions are the values they point to: the package
    never writes through them, and callers pass non-nil pointers.  The
    mutexes only serialise the operations and are not modelled: every
    operation is atomic here. *)

From stdpp Require Import base option list gmap strings.
From Stdlib Require Import ZArith.

Local Open Scope Z_scope.

(** ** External types *)

(** [net.IP] with its method [Equal].  The package only compares IP
    addresses through this method; it is an equivalence on addresses. *)
Class NetIP (net_IP : Type) := {
  IP_Equal : net_IP → net_IP → bool;
  IP_Equal_refl : ∀ a, IP_Equal a a = true;
  IP_Equal_sym : ∀ a b, IP_Equal a b = true → IP_Equal b a = true;
  IP_Equal_trans : ∀ a b c,
    IP_Equal a b = true → IP_Equal b c = true → IP_Equal a c = true
}.

(** Go's [error] values built by [errors.Errorf format args...]. *)
Record error := Errorf { format : string; args : list Z }.

Section RelayServer.

Context {net_IP : Type} `{!NetIP net_IP}.

(** [stun.TransportAddr]. *)
Record TransportAddr := { IP : net_IP; Port : Z }.

(** Modelled from the spec: the method [Equal] of the transport address
    value type, which belongs to the imported package [stun]; the spec
    describes it as value equality of IP and port. *)
Definition Equal (a b : TransportAddr) : bool :=
  IP_Equal (IP a) (IP b) && (Port a =? Port b).

(** [*net.UDPAddr] and values of the interface type [net.Addr]. *)
Record UDPAddr := { UDPAddr_IP : net_IP; UDPAddr_Port : Z }.

Inductive net_Addr :=
| nil_Addr                          (* the nil interface value *)
| UDPAddr_ptr (p : option UDPAddr)  (* dynamic type *net.UDPAddr; None is a nil pointer *)
| other_Addr.                       (* any other dynamic type *)

(** [net.PacketConn]: a bound socket, known by its local address. *)
Record PacketConn := { LocalAddr : net_Addr }.

(** ** The package's types *)

Record Permission := {
  Permission_IP : net_IP;
  Permission_Port : Z;
  TimeToExpiry : Z
}.

Inductive Protocol := UDP | TCP.

Definition Protocol_eqb (a b : Protocol) : bool :=
  match a, b with
  | UDP, UDP | TCP, TCP => true
  | _, _ => false
  end.

Record FiveTuple := {
  SrcAddr : TransportAddr;
  DstAddr : TransportAddr;
  FiveTuple_Protocol : Protocol
}.

(** [func (a *FiveTuple) match(b *FiveTuple) bool] *)
Definition match_ (a b : FiveTuple) : bool :=
  Equal (SrcAddr a) (SrcAddr b) &&
  Equal (DstAddr a) (DstAddr b) &&
  Protocol_eqb (FiveTuple_Protocol a) (FiveTuple_Protocol b).

Record ChannelBind := { addr : TransportAddr }.

Record server := {
  server_FiveTuple : FiveTuple;
  listeningPort : Z;
  reservationToken : string;
  username : string;
  lifetime : Z;
  permissions : list Permission;
  channelBindings : gmap Z ChannelBind
}.

Definition set_permissions (ps : list Permission) (s : server) : server :=
  {| server_FiveTuple := server_FiveTuple s;
     listeningPort := listeningPort s;
     reservationToken := reservationToken s;
     username := username s;
     lifetime := lifetime s;
     permissions := ps;
     channelBindings := channelBindings s |}.

Definition set_channelBindings (cbs : gmap Z ChannelBind) (s : server) : server :=
  {| server_FiveTuple := server_FiveTuple s;
     listeningPort := listeningPort s;
     reservationToken := reservationToken s;
     username := username s;
     lifetime := lifetime s;
     permissions := permissions s;
     channelBindings := cbs |}.

Definition RtpMTU : nat := 1500.

(** ** Start *)

(** What a call of [Start] leaves behind: the registry, the goroutine it
    started (the index of its server and its socket), and the two results. *)
Record Started := {
  Started_servers : list server;
  Started_go : option (nat * PacketConn);
  Started_listeningPort : Z;
  Started_err : option error
}.

(** [ListenPacket] is the outcome of [net.ListenPacket("udp", ":0")] and
    [NewTransportAddr] is [stun.NewTransportAddr]; both are external. *)
Definition Start (servers : list server)
    (fiveTuple : FiveTuple) (reservationToken : string) (lifetime : Z)
    (username : string)
    (ListenPacket : PacketConn + error)
    (NewTransportAddr : net_Addr → TransportAddr + error) : Started :=
  match ListenPacket with
  | inr err => {| Started_servers := servers; Started_go := None;
                  Started_listeningPort := 0; Started_err := Some err |}
  | inl listener =>
    match NewTransportAddr (LocalAddr listener) with
    | inr err => {| Started_servers := servers; Started_go := None;
                    Started_listeningPort := 0; Started_err := Some err |}
    | inl listeningAddr =>
      let s := {| server_FiveTuple := fiveTuple;
                  listeningPort := Port listeningAddr;
                  reservationToken := reservationToken;
                  username := username;
                  lifetime := lifetime;
                  permissions := [];
                  channelBindings := ∅ |} in
      {| Started_servers := servers ++ [s];
         Started_go := Some (length servers, listener);
         Started_listeningPort := Port listeningAddr;
         Started_err := None |}
    end
  end.

(** ** Lookups *)

(** The loop of [getServer]: [i] is the index of the head of [ss] in the
    registry and [server] the result variable, overwritten at every match. *)
Fixpoint getServer_range (fiveTuple : FiveTuple) (ss : list server)
    (i : nat) (server : option nat) : option nat :=
  match ss with
  | [] => server
  | s :: ss' =>
    getServer_range fiveTuple ss' (S i)
      (if match_ fiveTuple (server_FiveTuple s) then Some i else server)
  end.

Definition getServer (servers : list server) (fiveTuple : FiveTuple) : option nat :=
  getServer_range fiveTuple servers 0%nat None.

Definition Fulfilled (servers : list server) (fiveTuple : FiveTuple) : bool :=
  match getServer servers fiveTuple with
  | Some _ => true
  | None => false
  end.

(** The loop over [s.permissions] in [AddPermission]. *)
Fixpoint hasPermission (ps : list Permission) (permission : Permission) : bool :=
  match ps with
  | [] => false
  | p :: ps' =>
    if (Permission_Port p =? Permission_Port permission) &&
       IP_Equal (Permission_IP p) (Permission_IP permission)
    then true
    else hasPermission ps' permission
  end.

Definition appendPermission (permission : Permission) (s : server) : server :=
  if hasPermission (permissions s) permission then s
  else set_permissions (permissions s ++ [permission]) s.

Definition AddPermission (servers : list server) (fiveTuple : FiveTuple)
    (permission : Permission) : list server * option error :=
  match getServer servers fiveTuple with
  | None => (servers, Some (Errorf "Unable to add permission, server not found" []))
  | Some i => (alter (appendPermission permission) i servers, None)
  end.

Fixpoint GetSrcForRelay (servers : list server) (addr : TransportAddr)
    : option TransportAddr * option error :=
  match servers with
  | [] => (None, Some (Errorf "No Relay is listening on port %d" [Port addr]))
  | s :: servers' =>
    if Port addr =? listeningPort s
    then (Some (SrcAddr (server_FiveTuple s)), None)
    else GetSrcForRelay servers' addr
  end.

Fixpoint GetRelayForSrc (servers : list server) (addr : TransportAddr)
    : Z * option error :=
  match servers with
  | [] => (0, Some (Errorf "No Relay is allocated to this src %d" [Port addr]))
  | s :: servers' =>
    if Equal (SrcAddr (server_FiveTuple s)) addr
    then (listeningPort s, None)
    else GetRelayForSrc servers' addr
  end.

(** ** Channel bindings *)

Definition bindOn (relayPort channel : Z) (dstAddr : TransportAddr) (s : server) : server :=
  if listeningPort s =? relayPort
  then set_channelBindings (<[channel := {| addr := dstAddr |}]> (channelBindings s)) s
  else s.

Definition AddChannelBind (servers : list server) (relayPort channel : Z)
    (dstAddr : TransportAddr) : list server * option error :=
  (bindOn relayPort channel dstAddr <$> servers, None).

(** The test [cb, ok := s.channelBindings[channel]; ok && cb.addr.Port == srcPort]. *)
Definition boundTo (srcPort channel : Z) (s : server) : bool :=
  match channelBindings s !! channel with
  | Some cb => Port (addr cb) =? srcPort
  | None => false
  end.

Fixpoint GetChannelBind (servers : list server) (srcPort channel : Z)
    : option TransportAddr * bool :=
  match servers with
  | [] => (None, false)
  | s :: servers' =>
    if boundTo srcPort channel s
    then (Some (SrcAddr (server_FiveTuple s)), true)
    else GetChannelBind servers' srcPort channel
  end.

(** ** The relay loop *)

(** One return of [l.ReadFrom(buffer)]: the three results and the contents
    of [buffer] after the call.  [buildTransactionId] is defined elsewhere
    in the package; the identifier it returns in this iteration is taken
    from the environment along with the read. *)
Record ReadFrom := {
  ReadFrom_n : nat;
  ReadFrom_srcAddr : net_Addr;
  ReadFrom_err : option error;
  ReadFrom_buffer : list Z;
  ReadFrom_transactionId : list Z
}.

Inductive MessageClass := ClassIndication.
Inductive Method := MethodData.

Record XorPeerAddress := { XorAddress : TransportAddr }.
Record Data := { Data_Data : list Z }.

(** What the loop does to the outside world. *)
Inductive event :=
| Println (line : string)
| BuildAndSend (dst : TransportAddr) (class : MessageClass) (method : Method)
    (transactionId : list Z) (xorPeerAddressAttr : XorPeerAddress) (dataAttr : Data).

Inductive outcome :=
| Continue   (* the iteration ended, the loop goes back to [ReadFrom] *)
| Panicked   (* a run-time panic ended the goroutine *)
| Blocked.   (* waiting in [ReadFrom] for a datagram *)

(** The type assertion of [srcAddr] to a UDP address followed by the field
    access: a nil interface or another dynamic type panics in the
    assertion, a nil [*net.UDPAddr] panics in the field access. *)
Definition asUDPAddr (srcAddr : net_Addr) : option UDPAddr :=
  match srcAddr with
  | UDPAddr_ptr (Some a) => Some a
  | UDPAddr_ptr None | nil_Addr | other_Addr => None
  end.

(** The body of the [for] loop of [relayHandler]. *)
Definition relayIteration (s : server) (r : ReadFrom) : list event * outcome :=
  let failing :=
    match ReadFrom_err r with
    | Some _ => [Println "Failing to relay"]
    | None => []
    end in
  match asUDPAddr (ReadFrom_srcAddr r) with
  | None => (failing, Panicked)
  | Some a =>
    (failing ++
     [BuildAndSend (SrcAddr (server_FiveTuple s)) ClassIndication MethodData
        (ReadFrom_transactionId r)
        {| XorAddress := {| IP := UDPAddr_IP a; Port := UDPAddr_Port a |} |}
        {| Data_Data := take (ReadFrom_n r) (ReadFrom_buffer r) |}],
     Continue)
  end.

(** [relayHandler] run against the reads the socket delivers, in order. *)
Fixpoint relayHandler (s : server) (reads : list ReadFrom) : list event * outcome :=
  match reads with
  | [] => ([], Blocked)
  | r :: reads' =>
    match relayIteration s r with
    | (events, Continue) =>
      let '(events', o) := relayHandler s reads' in (events ++ events', o)
    | (events, o) => (events, o)
    end
  end.

(** ** Reachable registries *)

(** No registered server listens on port [p]. *)
Definition portFree (servers : list server) (p : Z) : Prop :=
  ∀ s, s ∈ servers → listeningPort s ≠ p.

(** The operating system binds [":0"] to a port that no open socket uses,
    and the package never closes a socket: the port of a new listener is
    free in the registry. *)
Definition freshListener (servers : list server)
    (ListenPacket : PacketConn + error)
    (NewTransportAddr : net_Addr → TransportAddr + error) : Prop :=
  ∀ listener listeningAddr,
    ListenPacket = inl listener →
    NewTransportAddr (LocalAddr listener) = inl listeningAddr →
    portFree servers (Port listeningAddr).

(** The registries the exported operations build from the empty one. *)
Inductive reachable : list server → Prop :=
| reachable_init : reachable []
| reachable_Start servers fiveTuple token lifetime user ListenPacket NewTransportAddr :
    reachable servers →
    freshListener servers ListenPacket NewTransportAddr →
    reachable (Started_servers
      (Start servers fiveTuple token lifetime user ListenPacket NewTransportAddr))
| reachable_AddPermission servers fiveTuple permission :
    reachable servers →
    reachable (AddPermission servers fiveTuple permission).1
| reachable_AddChannelBind servers relayPort channel dstAddr :
    reachable servers →
    reachable (AddChannelBind servers relayPort channel dstAddr).1.

(** Two permissions name the same peer, as the loop of [AddPermission]
    compares a stored permission [p] with the one it is given. *)
Definition samePeer (permission p : Permission) : bool :=
  (Permission_Port p =? Permission_Port permission) &&
  IP_Equal (Permission_IP p) (Permission_IP permission).

(** Value equality of transport addresses: same IP, same port. *)
Definition sameAddr (a b : TransportAddr) : Prop :=
  IP_Equal (IP a) (IP b) = true ∧ Port a = Port b.

(** ** Vocabulary of the properties *)

(** The errors the package returns. *)
Definition serverNotFound : error :=
  Errorf "Unable to add permission, server not found" [].

(** The index [i] holds the last server of the registry that matches. *)
Definition lastMatch (servers : list server) (fiveTuple : FiveTuple) (i : nat) : Prop :=
  (∃ s, servers !! i = Some s ∧ match_ fiveTuple (server_FiveTuple s) = true) ∧
  ∀ j s, (i < j)%nat → servers !! j = Some s →
    match_ fiveTuple (server_FiveTuple s) = false.

(** [s] is the first server of the registry that satisfies [test]. *)
Definition firstWith (test : server → bool) (servers : list server) (s : server) : Prop :=
  ∃ before after,
    servers = before ++ s :: after ∧ test s = true ∧
    ∀ x, x ∈ before → test x = false.

Definition listensOn (port : Z) (s : server) : bool := port =? listeningPort s.
Definition allocatedTo (a : TransportAddr) (s : server) : bool :=
  Equal (SrcAddr (server_FiveTuple s)) a.

Definition noRelayListening (a : TransportAddr) : error :=
  Errorf "No Relay is listening on port %d" [Port a].
Definition noRelayAllocated (a : TransportAddr) : error :=
  Errorf "No Relay is allocated to this src %d" [Port a].

(** The number of stored permissions that name the peer of [permission]. *)
Fixpoint entriesFor (permission : Permission) (ps : list Permission) : nat :=
  match ps with
  | [] => 0
  | p :: ps' => (if samePeer permission p then 1 else 0) + entriesFor permission ps'
  end.

(** Every stored permission set holds each peer at most once. *)
Definition peersOnce (servers : list server) : Prop :=
  ∀ s (q : Permission), s ∈ servers → (entriesFor q (permissions s) ≤ 1)%nat.

(** The unconditional round trip for the server at index [i]: binding any
    channel to any peer address on the server's port and then resolving the
    channel with the peer's port gives the server's client. *)
Definition bindThenResolve (servers : list server) (i : nat) : Prop :=
  ∀ s channel dstAddr,
    servers !! i = Some s →
    GetChannelBind (AddChannelBind servers (listeningPort s) channel dstAddr).1
      (Port dstAddr) channel = (Some (SrcAddr (server_FiveTuple s)), true).

(** Adding a permission twice, read for every server that matches the
    five-tuple: after [AddPermission] with [p] and then with [q], each
    matching server holds exactly one permission for the peer of [p]. *)
Definition permittedOnEveryMatch (servers : list server) (fiveTuple : FiveTuple)
    (p q : Permission) : Prop :=
  ∀ i s,
    servers !! i = Some s →
    match_ fiveTuple (server_FiveTuple s) = true →
    ∃ s2,
      (AddPermission (AddPermission servers fiveTuple p).1 fiveTuple q).1 !! i = Some s2 ∧
      entriesFor p (permissions s2) = 1%nat.

(** ** Sequences of calls *)

(** A call of one of the exported operations that change the registry;
    a call of [Start] comes with the outcomes of its two external calls. *)
Inductive call :=
| call_Start (fiveTuple : FiveTuple) (reservationToken : string) (lifetime : Z)
    (username : string) (ListenPacket : PacketConn + error)
    (NewTransportAddr : net_Addr → TransportAddr + error)
| call_AddPermission (fiveTuple : FiveTuple) (permission : Permission)
| call_AddChannelBind (relayPort channel : Z) (dstAddr : TransportAddr).

(** The registry after a call, and after a sequence of calls. *)
Definition after (servers : list server) (c : call) : list server :=
  match c with
  | call_Start fiveTuple token lifetime user ListenPacket NewTransportAddr =>
    Started_servers (Start servers fiveTuple token lifetime user ListenPacket NewTransportAddr)
  | call_AddPermission fiveTuple permission => (AddPermission servers fiveTuple permission).1
  | call_AddChannelBind relayPort channel dstAddr =>
    (AddChannelBind servers relayPort channel dstAddr).1
  end.

Definition run (servers : list server) (calls : list call) : list server :=
  foldl after servers calls.

(** The call is a [Start] that succeeds, for a five-tuple that
    [fiveTuple] matches. *)
Definition startedFor (fiveTuple : FiveTuple) (c : call) : bool :=
  match c with
  | call_Start started _ _ _ (inl listener) NewTransportAddr =>
    match NewTransportAddr (LocalAddr listener) with
    | inl _ => match_ fiveTuple started
    | inr _ => false
    end
  | _ => false
  end.

(** [s'] is [s] later on: the same allocation, with the permissions of [s]
    still at the front of its list and every channel of [s] still bound. *)
Definition grownFrom (s s' : server) : Prop :=
  server_FiveTuple s' = server_FiveTuple s ∧
  listeningPort s' = listeningPort s ∧
  reservationToken s' = reservationToken s ∧
  username s' = username s ∧
  lifetime s' = lifetime s ∧
  permissions s `prefix_of` permissions s' ∧
  ∀ channel, is_Some (channelBindings s !! channel) →
             is_Some (channelBindings s' !! channel).

(** The indication the relay loop sends for a datagram read from [u]. *)
Definition indication (s : server) (r : ReadFrom) (u : UDPAddr) : event :=
  BuildAndSend (SrcAddr (server_FiveTuple s)) ClassIndication MethodData
    (ReadFrom_transactionId r)
    {| XorAddress := {| IP := UDPAddr_IP u; Port := UDPAddr_Port u |} |}
    {| Data_Data := take (ReadFrom_n r) (ReadFrom_buffer r) |}.

Definition isSend (e : event) : bool :=
  match e with
  | BuildAndSend _ _ _ _ _ _ => true
  | Println _ => false
  end.

End RelayServer.

(** ** A concrete instance: IP addresses as byte strings in one form *)

#[export, refine] Instance bytes_NetIP : NetIP (list Z) :=
  {| IP_Equal a b := bool_decide (a = b) |}.
Proof.
  - intros a. by apply bool_decide_eq_true.
  - intros a b Hab. apply bool_decide_eq_true in Hab. by apply bool_decide_eq_true.
  - intros a b c Hab Hbc. apply bool_decide_eq_true in Hab, Hbc.
    apply bool_decide_eq_true. congruence.
Defined.

(** Sample values on this instance: two clients behind one server address,
    two peers that share a port number, and the servers of the two clients. *)
Module Sample.

Definition clientA : TransportAddr := {| IP := [10; 0; 0; 1]; Port := 40000 |}.
Definition clientB : TransportAddr := {| IP := [10; 0; 0; 2]; Port := 40001 |}.
Definition turn : TransportAddr := {| IP := [192; 0; 2; 1]; Port := 3478 |}.
Definition peerX : TransportAddr := {| IP := [1; 2; 3; 4]; Port := 9000 |}.
Definition peerY : TransportAddr := {| IP := [5; 6; 7; 8]; Port := 9000 |}.

Definition tupleA : FiveTuple :=
  {| SrcAddr := clientA; DstAddr := turn; FiveTuple_Protocol := UDP |}.
Definition tupleB : FiveTuple :=
  {| SrcAddr := clientB; DstAddr := turn; FiveTuple_Protocol := UDP |}.

Definition socket (port : Z) : PacketConn :=
  {| LocalAddr := UDPAddr_ptr (Some {| UDPAddr_IP := [0; 0; 0; 0]; UDPAddr_Port := port |}) |}.

(** [stun.NewTransportAddr] on the addresses of UDP sockets. *)
Definition NewTransportAddr (a : @net_Addr (list Z)) : @TransportAddr (list Z) + error :=
  match a with
  | UDPAddr_ptr (Some u) => inl {| IP := UDPAddr_IP u; Port := UDPAddr_Port u |}
  | _ => inr (Errorf "failed to create TransportAddr" [])
  end.

Definition permission (ttl : Z) : Permission :=
  {| Permission_IP := [1; 2; 3; 4]; Permission_Port := 9000; TimeToExpiry := ttl |}.

(** The registry after [Start] for client A (port 50000) and then for
    client B (port 50001). *)
Definition one : list server :=
  Started_servers (Start [] tupleA "tokenA" 600 "alice" (inl (socket 50000)) NewTransportAddr).
Definition two : list server :=
  Started_servers (Start one tupleB "tokenB" 600 "bob" (inl (socket 50001)) NewTransportAddr).

(** The server of client A as [Start] registers it. *)
Definition serverA : server :=
  {| server_FiveTuple := tupleA; listeningPort := 50000;
     reservationToken := "tokenA"; username := "alice"; lifetime := 600;
     permissions := []; channelBindings := ∅ |}.

(** A read that failed and returned no source address. *)
Definition failedRead : @ReadFrom (list Z) :=
  {| ReadFrom_n := 0; ReadFrom_srcAddr := nil_Addr;
     ReadFrom_err := Some (Errorf "use of closed network connection" []);
     ReadFrom_buffer := replicate RtpMTU 0; ReadFrom_transactionId := [] |}.

(** Client A has bound channel 0x4000 to peer X. *)
Definition two_bound : list server := (AddChannelBind two 50000 16384 peerX).1.

(** The server of client B as [Start] registers it. *)
Definition serverB : server :=
  {| server_FiveTuple := tupleB; listeningPort := 50001;
     reservationToken := "tokenB"; username := "bob"; lifetime := 600;
     permissions := []; channelBindings := ∅ |}.

(** A peer on another port, and an address that carries a relay port. *)
Definition peerZ : TransportAddr := {| IP := [1; 2; 3; 4]; Port := 9001 |}.
Definition relayB : TransportAddr := {| IP := [0; 0; 0; 0]; Port := 50001 |}.

(** A datagram of three bytes from peer X, and a read that failed but
    still named peer X as the sender. *)
Definition datagram : ReadFrom :=
  {| ReadFrom_n := 3;
     ReadFrom_srcAddr :=
       UDPAddr_ptr (Some {| UDPAddr_IP := [1; 2; 3; 4]; UDPAddr_Port := 9000 |});
     ReadFrom_err := None;
     ReadFrom_buffer := [7; 8; 9] ++ replicate (RtpMTU - 3) 0;
     ReadFrom_transactionId := [1] |}.
Definition failedDatagram : ReadFrom :=
  {| ReadFrom_n := 0;
     ReadFrom_srcAddr :=
       UDPAddr_ptr (Some {| UDPAddr_IP := [1; 2; 3; 4]; UDPAddr_Port := 9000 |});
     ReadFrom_err := Some (Errorf "read udp: i/o timeout" []);
     ReadFrom_buffer := replicate RtpMTU 0;
     ReadFrom_transactionId := [2] |}.

(** The registry after [Start] for client A on port 50000 and again for
    client A, same five-tuple, on port 50001. *)
Definition twiceA : list server :=
  Started_servers (Start one tupleA "tokenA2" 600 "alice" (inl (socket 50001)) NewTransportAddr).

End Sample.

(** * Properties *)

Section RelayServerFacts.

Context {net_IP : Type} `{!NetIP net_IP}.

Implicit Types (a b c : @TransportAddr net_IP) (s : @server net_IP)
  (servers : list (@server net_IP)).

(** ** Addresses and five-tuples *)

Lemma Equal_sameAddr a b : Equal a b = true ↔ sameAddr a b.
Proof.
  unfold Equal, sameAddr. rewrite andb_true_iff, Z.eqb_eq. tauto.
Qed.

Lemma Equal_refl a : Equal a a = true.
Proof. apply Equal_sameAddr. split; [apply IP_Equal_refl | done]. Qed.

Lemma Equal_sym a b : Equal a b = true → Equal b a = true.
Proof.
  rewrite !Equal_sameAddr. intros [HIP HPort].
  split; [by apply IP_Equal_sym | done].
Qed.

Lemma Equal_trans a b c : Equal a b = true → Equal b c = true → Equal a c = true.
Proof.
  rewrite !Equal_sameAddr. intros [HIP1 HPort1] [HIP2 HPort2].
  split; [by eapply IP_Equal_trans | congruence].
Qed.

Lemma Protocol_eqb_eq (p q : Protocol) : Protocol_eqb p q = true ↔ p = q.
Proof. destruct p, q; simpl; split; congruence. Qed.

(** C8: [match] answers true exactly when the two source addresses have the
    same IP and port, the two destination addresses have the same IP and
    port, and the protocols are the same.  It is a function of its two
    arguments alone: it neither reads nor changes the registry. *)
Theorem match_true_iff (x y : FiveTuple) :
  match_ x y = true ↔
    sameAddr (SrcAddr x) (SrcAddr y) ∧
    sameAddr (DstAddr x) (DstAddr y) ∧
    FiveTuple_Protocol x = FiveTuple_Protocol y.
Proof.
  unfold match_.
  rewrite !andb_true_iff, !Equal_sameAddr, Protocol_eqb_eq. tauto.
Qed.

(** ** Lookup by five-tuple *)

Lemma getServer_range_snoc fiveTuple ss s i acc :
  getServer_range fiveTuple (ss ++ [s]) i acc =
    if match_ fiveTuple (server_FiveTuple s) then Some (i + length ss)%nat
    else getServer_range fiveTuple ss i acc.
Proof.
  revert i acc. induction ss as [|x ss IH]; intros i acc; simpl.
  - by rewrite Nat.add_0_r.
  - rewrite IH. by replace (S i + length ss)%nat with (i + S (length ss))%nat by lia.
Qed.

Lemma getServer_snoc servers s fiveTuple :
  getServer (servers ++ [s]) fiveTuple =
    if match_ fiveTuple (server_FiveTuple s) then Some (length servers)
    else getServer servers fiveTuple.
Proof. unfold getServer. by rewrite getServer_range_snoc. Qed.

Lemma getServer_Some servers fiveTuple i :
  getServer servers fiveTuple = Some i ↔ lastMatch servers fiveTuple i.
Proof.
  revert i. induction servers as [|s servers IH] using rev_ind; intros i.
  - split; [done | intros [(s & Hs & _) _]; done].
  - rewrite getServer_snoc.
    destruct (match_ fiveTuple (server_FiveTuple s)) eqn:Hm.
    + split.
      * intros [= <-]. split.
        -- exists s. by rewrite list_lookup_middle.
        -- intros j s' Hj Hs'. apply lookup_lt_Some in Hs'.
           rewrite length_app in Hs'. simpl in Hs'. lia.
      * intros [(s' & Hs' & _) Hlast].
        destruct (decide (i = length servers)) as [->|Hne]; [done | exfalso].
        apply lookup_lt_Some in Hs' as Hlt. rewrite length_app in Hlt. simpl in Hlt.
        specialize (Hlast (length servers) s).
        rewrite list_lookup_middle in Hlast by done.
        rewrite Hlast in Hm; [done | lia | done].
    + rewrite IH. split.
      * intros [(s' & Hs' & Hm') Hlast]. split.
        -- exists s'. split; [|done]. by apply lookup_app_l_Some.
        -- intros j s'' Hj Hs''.
           destruct (decide (j = length servers)) as [->|Hne].
           ++ rewrite list_lookup_middle in Hs'' by done. by injection Hs'' as <-.
           ++ apply lookup_lt_Some in Hs'' as Hlt. rewrite length_app in Hlt.
              simpl in Hlt. rewrite lookup_app_l in Hs'' by lia. by eapply Hlast.
      * intros [(s' & Hs' & Hm') Hlast].
        destruct (decide (i = length servers)) as [->|Hne].
        { rewrite list_lookup_middle in Hs' by done. injection Hs' as <-. congruence. }
        apply lookup_lt_Some in Hs' as Hlt. rewrite length_app in Hlt. simpl in Hlt.
        rewrite lookup_app_l in Hs' by lia. split; [by exists s'|].
        intros j s'' Hj Hs''. eapply Hlast; [done|]. by apply lookup_app_l_Some.
Qed.

Lemma getServer_None servers fiveTuple :
  getServer servers fiveTuple = None ↔
    ∀ s, s ∈ servers → match_ fiveTuple (server_FiveTuple s) = false.
Proof.
  induction servers as [|s servers IH] using rev_ind.
  - split; [intros _ s Hs; by apply elem_of_nil in Hs | done].
  - rewrite getServer_snoc.
    destruct (match_ fiveTuple (server_FiveTuple s)) eqn:Hm.
    + split; [done|]. intros Hall. rewrite Hall in Hm; [done|].
      apply elem_of_app. right. by apply list_elem_of_singleton.
    + rewrite IH. split.
      * intros Hall s' Hs'. apply elem_of_app in Hs' as [Hs'|Hs'].
        -- by apply Hall.
        -- apply list_elem_of_singleton in Hs'. by subst.
      * intros Hall s' Hs'. apply Hall, elem_of_app. by left.
Qed.

(** C3: [getServer] scans the whole registry and keeps the last server
    that matches: it returns index [i] exactly when the server at [i]
    matches and no server after it does, and nothing exactly when no server
    matches.  [Fulfilled] is true exactly when [getServer] returns a
    server. *)
Theorem getServer_last_match servers (fiveTuple : FiveTuple) :
  (∀ i, getServer servers fiveTuple = Some i ↔ lastMatch servers fiveTuple i) ∧
  (getServer servers fiveTuple = None ↔
     ∀ s, s ∈ servers → match_ fiveTuple (server_FiveTuple s) = false) ∧
  (Fulfilled servers fiveTuple = true ↔ is_Some (getServer servers fiveTuple)).
Proof.
  split; [|split].
  - intros i. apply getServer_Some.
  - apply getServer_None.
  - unfold Fulfilled. destruct (getServer servers fiveTuple).
    + split; [by eexists | done].
    + split; [done | by intros [? ?]].
Qed.

(** ** Permissions *)

(** C6: [AddPermission] returns its error exactly when no registered server
    matches the five-tuple, and then leaves the registry alone; when a
    server matches it returns no error. *)
Theorem AddPermission_error_iff servers (fiveTuple : FiveTuple)
    (permission : Permission) :
  ((AddPermission servers fiveTuple permission).2 = Some serverNotFound ↔
     ∀ s, s ∈ servers → match_ fiveTuple (server_FiveTuple s) = false) ∧
  ((AddPermission servers fiveTuple permission).2 = None ↔
     ∃ s, s ∈ servers ∧ match_ fiveTuple (server_FiveTuple s) = true) ∧
  ((AddPermission servers fiveTuple permission).2 ≠ None →
     (AddPermission servers fiveTuple permission).1 = servers).
Proof.
  unfold AddPermission.
  destruct (getServer servers fiveTuple) as [i|] eqn:Hget; simpl.
  - apply getServer_Some in Hget as [(s & Hs & Hm) _].
    apply list_elem_of_lookup_2 in Hs.
    split; [|split].
    + split; [done|]. intros Hall. rewrite Hall in Hm; done.
    + split; [|done]. intros _. by exists s.
    + done.
  - pose proof (proj1 (getServer_None _ _) Hget) as Hnone.
    split; [|split].
    + done.
    + split; [done|]. intros (s & Hs & Hm). rewrite Hnone in Hm; done.
    + done.
Qed.


(** ** Lookups by relayed port and by source address *)

Lemma firstWith_here (test : server → bool) s servers :
  test s = true → firstWith test (s :: servers) s.
Proof.
  intros Ht. exists [], servers. split; [done|]. split; [done|].
  intros x Hx. by apply elem_of_nil in Hx.
Qed.

Lemma firstWith_later (test : server → bool) x s servers :
  test x = false → firstWith test servers s → firstWith test (x :: servers) s.
Proof.
  intros Hx (before & after & -> & Ht & Hbefore).
  exists (x :: before), after. split; [done|]. split; [done|].
  intros y Hy. apply elem_of_cons in Hy as [->|Hy]; [done | by apply Hbefore].
Qed.

Lemma firstWith_cons_inv (test : server → bool) x s servers :
  firstWith test (x :: servers) s →
  (test x = true ∧ s = x) ∨ (test x = false ∧ firstWith test servers s).
Proof.
  intros (before & after & Heq & Ht & Hbefore).
  destruct before as [|y before]; simpl in Heq; injection Heq as <- Heq.
  - by left.
  - right. split; [apply Hbefore; by left|].
    exists before, after. split; [done|]. split; [done|].
    intros z Hz. apply Hbefore. by right.
Qed.

Lemma firstWith_elem (test : server → bool) servers s :
  firstWith test servers s → s ∈ servers ∧ test s = true.
Proof.
  intros (before & after & -> & Ht & _). split; [|done].
  apply elem_of_app. right. by left.
Qed.

Lemma GetSrcForRelay_first servers a s :
  firstWith (listensOn (Port a)) servers s →
  GetSrcForRelay servers a = (Some (SrcAddr (server_FiveTuple s)), None).
Proof.
  induction servers as [|x servers IH]; intros Hfirst.
  - destruct Hfirst as (before & after & Heq & _). by destruct before.
  - apply firstWith_cons_inv in Hfirst as [[Hx ->]|[Hx Hfirst]];
      simpl; unfold listensOn in Hx; rewrite Hx; [done | by apply IH].
Qed.

Lemma GetSrcForRelay_none servers a :
  portFree servers (Port a) →
  GetSrcForRelay servers a = (None, Some (noRelayListening a)).
Proof.
  induction servers as [|x servers IH]; intros Hfree; [done|]. simpl.
  destruct (Z.eqb_spec (Port a) (listeningPort x)) as [Heq|Hne].
  - exfalso. by apply (Hfree x); [left|].
  - apply IH. intros s Hs. apply Hfree. by right.
Qed.

Lemma GetRelayForSrc_first servers a s :
  firstWith (allocatedTo a) servers s →
  GetRelayForSrc servers a = (listeningPort s, None).
Proof.
  induction servers as [|x servers IH]; intros Hfirst.
  - destruct Hfirst as (before & after & Heq & _). by destruct before.
  - apply firstWith_cons_inv in Hfirst as [[Hx ->]|[Hx Hfirst]];
      simpl; unfold allocatedTo in Hx; rewrite Hx; [done | by apply IH].
Qed.

Lemma GetRelayForSrc_none servers a :
  (∀ s, s ∈ servers → allocatedTo a s = false) →
  GetRelayForSrc servers a = (0, Some (noRelayAllocated a)).
Proof.
  induction servers as [|x servers IH]; intros Hnone; [done|]. simpl.
  pose proof (Hnone x) as Hx. unfold allocatedTo in Hx. rewrite Hx by left.
  apply IH. intros s Hs. apply Hnone. by right.
Qed.

(** Every scan either finds a first server that passes the test or finds
    that no server passes it. *)
Lemma firstWith_or_none (test : server → bool) servers :
  (∃ s, firstWith test servers s) ∨ (∀ s, s ∈ servers → test s = false).
Proof.
  induction servers as [|x servers IH].
  - right. intros s Hs. by apply elem_of_nil in Hs.
  - destruct (test x) eqn:Hx.
    + left. exists x. by apply firstWith_here.
    + destruct IH as [[s Hs]|Hnone].
      * left. exists s. by apply firstWith_later.
      * right. intros s Hs. apply elem_of_cons in Hs as [->|Hs]; [done | by apply Hnone].
Qed.

Lemma portFree_listensOn servers port :
  portFree servers port ↔ ∀ s, s ∈ servers → listensOn port s = false.
Proof.
  unfold portFree, listensOn. split; intros H s Hs.
  - apply Z.eqb_neq. intros Heq. by apply (H s Hs).
  - intros Heq. specialize (H s Hs). apply Z.eqb_neq in H. by apply H.
Qed.

(** C7: [GetSrcForRelay] returns its error exactly when no registered
    server listens on the port of the address it is given, and otherwise
    returns the source address of the first server that listens on it;
    [GetRelayForSrc] returns its error exactly when the source address of no
    registered server equals the address it is given, and otherwise returns
    the listening port of the first server whose source address does. *)
Theorem lookups_error_iff servers a :
  (GetSrcForRelay servers a = (None, Some (noRelayListening a)) ↔
     portFree servers (Port a)) ∧
  ((GetSrcForRelay servers a).2 = None ↔
     ∃ s, firstWith (listensOn (Port a)) servers s ∧
          (GetSrcForRelay servers a).1 = Some (SrcAddr (server_FiveTuple s))) ∧
  (GetRelayForSrc servers a = (0, Some (noRelayAllocated a)) ↔
     ∀ s, s ∈ servers → Equal (SrcAddr (server_FiveTuple s)) a = false) ∧
  ((GetRelayForSrc servers a).2 = None ↔
     ∃ s, firstWith (allocatedTo a) servers s ∧
          (GetRelayForSrc servers a).1 = listeningPort s).
Proof.
  split; [|split; [|split]].
  - split; [|apply GetSrcForRelay_none].
    intros Herr. apply portFree_listensOn.
    destruct (firstWith_or_none (listensOn (Port a)) servers) as [[s Hs]|Hnone]; [|done].
    rewrite (GetSrcForRelay_first _ _ _ Hs) in Herr. done.
  - split.
    + intros Hok.
      destruct (firstWith_or_none (listensOn (Port a)) servers) as [[s Hs]|Hnone].
      * exists s. split; [done|]. by rewrite (GetSrcForRelay_first _ _ _ Hs).
      * apply portFree_listensOn in Hnone.
        rewrite (GetSrcForRelay_none _ _ Hnone) in Hok. done.
    + intros (s & Hs & _). by rewrite (GetSrcForRelay_first _ _ _ Hs).
  - split; [|apply GetRelayForSrc_none].
    intros Herr.
    destruct (firstWith_or_none (allocatedTo a) servers) as [[s Hs]|Hnone]; [|done].
    rewrite (GetRelayForSrc_first _ _ _ Hs) in Herr. done.
  - split.
    + intros Hok.
      destruct (firstWith_or_none (allocatedTo a) servers) as [[s Hs]|Hnone].
      * exists s. split; [done|]. by rewrite (GetRelayForSrc_first _ _ _ Hs).
      * rewrite (GetRelayForSrc_none _ _ Hnone) in Hok. done.
    + intros (s & Hs & _). by rewrite (GetRelayForSrc_first _ _ _ Hs).
Qed.


(** ** Channel bindings on an unknown port *)

Lemma bindOn_other relayPort channel dstAddr s :
  listeningPort s ≠ relayPort → bindOn relayPort channel dstAddr s = s.
Proof. intros Hne. unfold bindOn. by rewrite (proj2 (Z.eqb_neq _ _) Hne). Qed.

(** C5: when no registered server listens on [relayPort], [AddChannelBind]
    returns no error and the registry, bindings included, is what it was;
    [AddPermission] whose lookup finds no server returns its error. *)
Theorem AddChannelBind_unknown_port servers relayPort channel dstAddr :
  portFree servers relayPort →
  AddChannelBind servers relayPort channel dstAddr = (servers, None) ∧
  ∀ (fiveTuple : FiveTuple) (permission : Permission),
    (∀ s, s ∈ servers → match_ fiveTuple (server_FiveTuple s) = false) →
    AddPermission servers fiveTuple permission = (servers, Some serverNotFound).
Proof.
  intros Hfree. split.
  - unfold AddChannelBind. f_equal.
    induction servers as [|s servers IH]; [done|].
    rewrite fmap_cons, bindOn_other, IH; [done | |].
    + intros x Hx. apply Hfree. by right.
    + apply Hfree. by left.
  - intros fiveTuple permission Hnone. unfold AddPermission.
    by rewrite (proj2 (getServer_None _ _) Hnone).
Qed.

(** ** Start *)

(** C9: when [net.ListenPacket] fails, or it succeeds and
    [stun.NewTransportAddr] fails on the local address, [Start] returns that
    error with the registry exactly as it was and no goroutine started. *)
Theorem Start_failure_atomic servers (fiveTuple : FiveTuple) token lifetime user
    (ListenPacket : PacketConn + error)
    (NewTransportAddr : net_Addr → TransportAddr + error) err :
  ListenPacket = inr err ∨
  (∃ listener, ListenPacket = inl listener ∧
               NewTransportAddr (LocalAddr listener) = inr err) →
  Start servers fiveTuple token lifetime user ListenPacket NewTransportAddr =
    {| Started_servers := servers; Started_go := None;
       Started_listeningPort := 0; Started_err := Some err |}.
Proof.
  intros [->|(listener & -> & Haddr)]; unfold Start; [done|]. by rewrite Haddr.
Qed.

(** ** The relay loop *)

(** C10: after a failed read the iteration prints its message and goes on
    to the forwarding step.  When the returned source address is not a
    usable UDP address (nil after a failed read), the iteration panics right
    after the message; when it is one, the indication is built and sent
    after the message.  With a nil source address the goroutine ends there,
    whatever the socket would deliver next. *)
Theorem relayIteration_failed_read s (r : ReadFrom) err :
  ReadFrom_err r = Some err →
  (asUDPAddr (ReadFrom_srcAddr r) = None →
     relayIteration s r = ([Println "Failing to relay"], Panicked)) ∧
  (∀ u, asUDPAddr (ReadFrom_srcAddr r) = Some u →
     relayIteration s r =
       ([Println "Failing to relay";
         BuildAndSend (SrcAddr (server_FiveTuple s)) ClassIndication MethodData
           (ReadFrom_transactionId r)
           {| XorAddress := {| IP := UDPAddr_IP u; Port := UDPAddr_Port u |} |}
           {| Data_Data := take (ReadFrom_n r) (ReadFrom_buffer r) |}],
        Continue)) ∧
  (ReadFrom_srcAddr r = nil_Addr →
     ∀ reads, relayHandler s (r :: reads) = ([Println "Failing to relay"], Panicked)).
Proof.
  intros Herr. split; [|split].
  - intros Hnil. unfold relayIteration. by rewrite Herr, Hnil.
  - intros u Hu. unfold relayIteration. by rewrite Herr, Hu.
  - intros Hnil reads. simpl. unfold relayIteration. by rewrite Herr, Hnil.
Qed.


(** ** Invariants of reachable registries *)

Lemma listeningPort_appendPermission permission s :
  listeningPort (appendPermission permission s) = listeningPort s.
Proof. unfold appendPermission. by destruct (hasPermission _ _). Qed.

Lemma listeningPort_bindOn relayPort channel dstAddr s :
  listeningPort (bindOn relayPort channel dstAddr s) = listeningPort s.
Proof. unfold bindOn. by destruct (_ =? _). Qed.

Lemma fmap_alter_preserved {B} (g : server → B) (f : server → server) i servers :
  (∀ s, g (f s) = g s) → g <$> alter f i servers = g <$> servers.
Proof.
  intros Hpres. revert i. induction servers as [|x servers IH]; intros [|i].
  - done.
  - done.
  - simpl. by rewrite Hpres.
  - change (g x :: (g <$> alter f i servers) = g x :: (g <$> servers)).
    by rewrite IH.
Qed.

Lemma fmap_fmap_preserved {B} (g : server → B) (f : server → server) servers :
  (∀ s, g (f s) = g s) → g <$> (f <$> servers) = g <$> servers.
Proof.
  intros Hpres. induction servers as [|x servers IH]; [done|].
  rewrite !fmap_cons, Hpres. by rewrite IH.
Qed.

(** No two registered servers listen on the same port. *)
Lemma reachable_ports_NoDup servers :
  reachable servers → NoDup (listeningPort <$> servers).
Proof.
  induction 1 as [|servers fiveTuple token lifetime user lp nta _ IH Hfresh
                  |servers fiveTuple permission _ IH
                  |servers relayPort channel dstAddr _ IH].
  - constructor.
  - unfold Start. destruct lp as [listener|err]; [|done].
    destruct (nta (LocalAddr listener)) as [listeningAddr|err] eqn:Haddr; [|done].
    simpl. rewrite fmap_app. apply NoDup_app. split; [done|]. split.
    + intros port Hport Hnew. simpl in Hnew.
      apply list_elem_of_singleton in Hnew. subst port.
      apply list_elem_of_fmap in Hport as (s & Hs & Hin).
      by apply (Hfresh listener listeningAddr eq_refl Haddr s Hin).
    + apply NoDup_singleton.
  - unfold AddPermission. destruct (getServer servers fiveTuple); [|done]. simpl.
    rewrite fmap_alter_preserved; [done|]. apply listeningPort_appendPermission.
  - simpl. rewrite fmap_fmap_preserved; [done|]. intros s. apply listeningPort_bindOn.
Qed.

(** With distinct ports, the scan of [GetSrcForRelay] stops at the one
    server that listens on the port. *)
Lemma GetSrcForRelay_server servers s a :
  NoDup (listeningPort <$> servers) → s ∈ servers → Port a = listeningPort s →
  GetSrcForRelay servers a = (Some (SrcAddr (server_FiveTuple s)), None).
Proof.
  intros Hnodup Hs Hport.
  induction servers as [|x servers IH]; [by apply elem_of_nil in Hs|].
  rewrite fmap_cons in Hnodup. apply NoDup_cons in Hnodup as [Hx Hnodup]. simpl.
  apply elem_of_cons in Hs as [->|Hs].
  - by rewrite Hport, Z.eqb_refl.
  - destruct (Z.eqb_spec (Port a) (listeningPort x)) as [Heq|Hne]; [|by apply IH].
    exfalso. apply Hx. rewrite <-Heq, Hport. by apply list_elem_of_fmap_2.
Qed.

(** C4: for a server [s] of a reachable registry, [GetRelayForSrc] on the
    source address of [s] returns a port and no error, and [GetSrcForRelay]
    on any address with that port returns, with no error, an address with
    the IP and port of the source address of [s]. *)
Theorem relay_round_trip servers s :
  reachable servers → s ∈ servers →
  ∃ port,
    GetRelayForSrc servers (SrcAddr (server_FiveTuple s)) = (port, None) ∧
    ∀ a, Port a = port →
      ∃ src, GetSrcForRelay servers a = (Some src, None) ∧
             sameAddr src (SrcAddr (server_FiveTuple s)).
Proof.
  intros Hreach Hs.
  destruct (firstWith_or_none (allocatedTo (SrcAddr (server_FiveTuple s))) servers)
    as [[s' Hfirst]|Hnone].
  - exists (listeningPort s'). split; [by apply GetRelayForSrc_first|].
    intros a Hport. exists (SrcAddr (server_FiveTuple s')).
    apply firstWith_elem in Hfirst as [Hs' Hequal]. split.
    + apply GetSrcForRelay_server; [by apply reachable_ports_NoDup | done | done].
    + by apply Equal_sameAddr.
  - specialize (Hnone s Hs). unfold allocatedTo in Hnone.
    by rewrite Equal_refl in Hnone.
Qed.


(** ** Adding a permission twice *)

Lemma entriesFor_app (permission : Permission) ps qs :
  entriesFor permission (ps ++ qs) =
    (entriesFor permission ps + entriesFor permission qs)%nat.
Proof. induction ps as [|p ps IH]; simpl; [done | rewrite IH; lia]. Qed.

Lemma hasPermission_entriesFor ps (permission : Permission) :
  hasPermission ps permission = false ↔ entriesFor permission ps = 0%nat.
Proof.
  induction ps as [|p ps IH]; simpl; [done|].
  change ((Permission_Port p =? Permission_Port permission) &&
          IP_Equal (Permission_IP p) (Permission_IP permission))
    with (samePeer permission p).
  destruct (samePeer permission p); [split; [done | lia] | by rewrite IH].
Qed.

Lemma samePeer_true (permission p : Permission) :
  samePeer permission p = true ↔
    Permission_Port p = Permission_Port permission ∧
    IP_Equal (Permission_IP p) (Permission_IP permission) = true.
Proof. unfold samePeer. by rewrite andb_true_iff, Z.eqb_eq. Qed.

Lemma samePeer_refl (p : Permission) : samePeer p p = true.
Proof. apply samePeer_true. split; [done | apply IP_Equal_refl]. Qed.

Lemma samePeer_sym (p q : Permission) : samePeer p q = true → samePeer q p = true.
Proof.
  rewrite !samePeer_true. intros [HPort HIP]. split; [done | by apply IP_Equal_sym].
Qed.

Lemma samePeer_trans (p q r : Permission) :
  samePeer p q = true → samePeer q r = true → samePeer p r = true.
Proof.
  rewrite !samePeer_true. intros [HPort1 HIP1] [HPort2 HIP2].
  split; [congruence | by eapply IP_Equal_trans].
Qed.

(** Permissions that name the same peer count the same entries. *)
Lemma entriesFor_samePeer (p q : Permission) ps :
  samePeer p q = true → entriesFor q ps = entriesFor p ps.
Proof.
  intros Hpq. induction ps as [|x ps IH]; simpl; [done|]. rewrite IH. f_equal.
  destruct (samePeer q x) eqn:Hqx, (samePeer p x) eqn:Hpx; try done.
  - by rewrite (samePeer_trans _ _ _ Hpq Hqx) in Hpx.
  - by rewrite (samePeer_trans _ _ _ (samePeer_sym _ _ Hpq) Hpx) in Hqx.
Qed.

Lemma appendPermission_once (permission : Permission) s :
  (∀ q, (entriesFor q (permissions s) ≤ 1)%nat) →
  ∀ q, (entriesFor q (permissions (appendPermission permission s)) ≤ 1)%nat.
Proof.
  intros Honce q. unfold appendPermission.
  destruct (hasPermission (permissions s) permission) eqn:Hhas; [done|].
  simpl. rewrite entriesFor_app. simpl.
  apply hasPermission_entriesFor in Hhas.
  destruct (samePeer q permission) eqn:Hq.
  - rewrite (entriesFor_samePeer permission q) by by apply samePeer_sym. lia.
  - specialize (Honce q). lia.
Qed.

Lemma elem_of_alter (f : server → server) i servers s :
  s ∈ alter f i servers → s ∈ servers ∨ ∃ x, x ∈ servers ∧ s = f x.
Proof.
  intros Hs. apply list_elem_of_lookup in Hs as [j Hj].
  destruct (decide (i = j)) as [->|Hne].
  - rewrite list_lookup_alter_eq in Hj.
    destruct (servers !! j) as [x|] eqn:Hx; [|done]. injection Hj as <-.
    right. exists x. split; [by eapply list_elem_of_lookup_2 | done].
  - rewrite list_lookup_alter_ne in Hj by done. left. by eapply list_elem_of_lookup_2.
Qed.

Lemma reachable_peersOnce servers : reachable servers → peersOnce servers.
Proof.
  induction 1 as [|servers fiveTuple token lifetime user lp nta _ IH Hfresh
                  |servers fiveTuple permission _ IH
                  |servers relayPort channel dstAddr _ IH]; intros s q Hs.
  - by apply elem_of_nil in Hs.
  - unfold Start in Hs. destruct lp as [listener|err]; [|by apply IH].
    destruct (nta (LocalAddr listener)) as [listeningAddr|err]; [|by apply IH].
    simpl in Hs. apply elem_of_app in Hs as [Hs|Hs]; [by apply IH|].
    apply list_elem_of_singleton in Hs. subst s. simpl. lia.
  - unfold AddPermission in Hs.
    destruct (getServer servers fiveTuple) as [i|]; [|by apply IH]. simpl in Hs.
    apply elem_of_alter in Hs as [Hs|(x & Hx & ->)]; [by apply IH|].
    apply appendPermission_once. intros q'. by apply IH.
  - simpl in Hs. apply list_elem_of_fmap in Hs as (x & -> & Hx).
    unfold bindOn. destruct (_ =? _); simpl; by apply IH.
Qed.

Lemma getServer_range_FiveTuples fiveTuple (ss ss' : list server) i acc :
  server_FiveTuple <$> ss = server_FiveTuple <$> ss' →
  getServer_range fiveTuple ss i acc = getServer_range fiveTuple ss' i acc.
Proof.
  revert ss' i acc. induction ss as [|s ss IH]; intros [|s' ss'] i acc Heq; try done.
  rewrite !fmap_cons in Heq. injection Heq as Hs Hss. simpl.
  rewrite Hs. by apply IH.
Qed.

Lemma getServer_alter_appendPermission servers fiveTuple permission i :
  getServer (alter (appendPermission permission) i servers) fiveTuple =
    getServer servers fiveTuple.
Proof.
  apply getServer_range_FiveTuples, fmap_alter_preserved.
  intros s. unfold appendPermission. by destruct (hasPermission _ _).
Qed.

Lemma alter_fixed (f : server → server) i servers s :
  servers !! i = Some s → f s = s → alter f i servers = servers.
Proof.
  intros Hs Hf. apply list_eq. intros j.
  destruct (decide (i = j)) as [->|Hne].
  - by rewrite list_lookup_alter_eq, Hs; simpl; rewrite Hf.
  - by rewrite list_lookup_alter_ne.
Qed.

(** C2: in a reachable registry where [getServer] finds server [i] for the
    five-tuple, [AddPermission] with [p] and then with any [q] for the same
    peer IP and port (whatever its time to expiry) leaves server [i] with
    exactly one permission for that peer; the second call returns no error
    and changes nothing, and the first call changes nothing either when
    the peer already had a permission. *)
Theorem AddPermission_idempotent servers (fiveTuple : FiveTuple)
    (p q : Permission) i :
  reachable servers →
  getServer servers fiveTuple = Some i →
  samePeer p q = true →
  ∃ s0 s1,
    servers !! i = Some s0 ∧
    (AddPermission servers fiveTuple p).1 !! i = Some s1 ∧
    entriesFor p (permissions s1) = 1%nat ∧
    AddPermission (AddPermission servers fiveTuple p).1 fiveTuple q =
      ((AddPermission servers fiveTuple p).1, None) ∧
    (entriesFor p (permissions s0) ≠ 0%nat →
       AddPermission servers fiveTuple p = (servers, None)).
Proof.
  intros Hreach Hget Hpq.
  pose proof (proj1 (getServer_Some _ _ _) Hget) as [(s0 & Hs0 & _) _].
  pose proof (reachable_peersOnce _ Hreach s0 p (list_elem_of_lookup_2 _ _ _ Hs0))
    as Honce.
  exists s0, (appendPermission p s0).
  assert (entriesFor p (permissions (appendPermission p s0)) = 1%nat) as Hone.
  { unfold appendPermission.
    destruct (hasPermission (permissions s0) p) eqn:Hhas.
    - destruct (entriesFor p (permissions s0)) as [|[|n]] eqn:Hn; [|done|lia].
      apply hasPermission_entriesFor in Hn. congruence.
    - apply hasPermission_entriesFor in Hhas. simpl.
      rewrite entriesFor_app, Hhas. simpl. by rewrite samePeer_refl. }
  unfold AddPermission at 1 2 3. rewrite Hget. simpl.
  assert (alter (appendPermission p) i servers !! i = Some (appendPermission p s0))
    as Hs1 by by rewrite list_lookup_alter_eq, Hs0.
  split; [done|]. split; [done|]. split; [done|]. split.
  - unfold AddPermission. rewrite getServer_alter_appendPermission, Hget.
    f_equal. eapply alter_fixed; [done|].
    unfold appendPermission at 1.
    destruct (hasPermission (permissions (appendPermission p s0)) q) eqn:Hhas; [done|].
    apply hasPermission_entriesFor in Hhas.
    rewrite (entriesFor_samePeer p q) in Hhas by done. congruence.
  - intros Hsome. unfold AddPermission. rewrite Hget. f_equal.
    eapply alter_fixed; [done|]. unfold appendPermission.
    destruct (hasPermission (permissions s0) p) eqn:Hhas; [done|].
    by apply hasPermission_entriesFor in Hhas.
Qed.


(** ** Binding a channel and resolving it *)

Lemma boundTo_bindOn srcPort relayPort channel dstAddr s :
  boundTo srcPort channel (bindOn relayPort channel dstAddr s) =
    if listeningPort s =? relayPort then Port dstAddr =? srcPort
    else boundTo srcPort channel s.
Proof.
  unfold bindOn. destruct (listeningPort s =? relayPort); [|done].
  unfold boundTo. simpl. by rewrite lookup_insert_eq.
Qed.

Lemma SrcAddr_bindOn relayPort channel dstAddr s :
  SrcAddr (server_FiveTuple (bindOn relayPort channel dstAddr s)) =
    SrcAddr (server_FiveTuple s).
Proof. unfold bindOn. by destruct (_ =? _). Qed.

Lemma GetChannelBind_first servers srcPort channel s :
  firstWith (boundTo srcPort channel) servers s →
  GetChannelBind servers srcPort channel = (Some (SrcAddr (server_FiveTuple s)), true).
Proof.
  induction servers as [|x servers IH]; intros Hfirst.
  - destruct Hfirst as (before & after & Heq & _). by destruct before.
  - apply firstWith_cons_inv in Hfirst as [[Hx ->]|[Hx Hfirst]];
      simpl; rewrite Hx; [done | by apply IH].
Qed.

(** [GetChannelBind] after [AddChannelBind] reads the port of the bound
    address and nothing else of it. *)
Lemma GetChannelBind_port_only servers relayPort channel dstAddr dstAddr' srcPort :
  Port dstAddr' = Port dstAddr →
  GetChannelBind (AddChannelBind servers relayPort channel dstAddr').1 srcPort channel =
    GetChannelBind (AddChannelBind servers relayPort channel dstAddr).1 srcPort channel.
Proof.
  intros Hport. simpl. induction servers as [|x servers IH]; [done|].
  rewrite !fmap_cons. simpl.
  rewrite !boundTo_bindOn, !SrcAddr_bindOn, Hport. by rewrite IH.
Qed.

(** C1: after a channel is bound to [dstAddr] on the port of the
    server at index [i], resolving the channel with the port of [dstAddr]
    finds a binding and returns the client of the first server of the
    registry that holds one for that channel and peer port.  That client is
    the client of server [i] when no earlier server listens on the same port
    or holds such a binding.  Only the port of [dstAddr] is looked at. *)
Theorem bind_then_resolve servers i s channel dstAddr :
  servers !! i = Some s →
  (∃ s', firstWith (boundTo (Port dstAddr) channel)
           (AddChannelBind servers (listeningPort s) channel dstAddr).1 s' ∧
         GetChannelBind (AddChannelBind servers (listeningPort s) channel dstAddr).1
           (Port dstAddr) channel = (Some (SrcAddr (server_FiveTuple s')), true)) ∧
  ((∀ j x, (j < i)%nat → servers !! j = Some x →
      listeningPort x ≠ listeningPort s ∧ boundTo (Port dstAddr) channel x = false) →
   GetChannelBind (AddChannelBind servers (listeningPort s) channel dstAddr).1
     (Port dstAddr) channel = (Some (SrcAddr (server_FiveTuple s)), true)) ∧
  (∀ dstAddr', Port dstAddr' = Port dstAddr →
   GetChannelBind (AddChannelBind servers (listeningPort s) channel dstAddr').1
     (Port dstAddr) channel =
   GetChannelBind (AddChannelBind servers (listeningPort s) channel dstAddr).1
     (Port dstAddr) channel).
Proof.
  intros Hs.
  set (bind := bindOn (listeningPort s) channel dstAddr).
  assert (boundTo (Port dstAddr) channel (bind s) = true) as Hbound.
  { unfold bind. by rewrite boundTo_bindOn, !Z.eqb_refl. }
  split; [|split].
  - destruct (firstWith_or_none (boundTo (Port dstAddr) channel)
                (AddChannelBind servers (listeningPort s) channel dstAddr).1)
      as [[s' Hfirst]|Hnone].
    + exists s'. split; [done | by apply GetChannelBind_first].
    + exfalso. rewrite (Hnone (bind s)) in Hbound; [done|].
      simpl. apply list_elem_of_fmap_2. by eapply list_elem_of_lookup_2.
  - intros Hearlier.
    rewrite <-(SrcAddr_bindOn (listeningPort s) channel dstAddr s).
    apply GetChannelBind_first.
    exists (bind <$> take i servers), (bind <$> drop (S i) servers).
    split; [|split; [done|]].
    + simpl. rewrite <-(take_drop_middle servers i s Hs) at 1.
      by rewrite fmap_app, fmap_cons.
    + intros x' Hx'. apply list_elem_of_fmap in Hx' as (x & -> & Hx).
      apply list_elem_of_lookup in Hx as [j Hj].
      apply lookup_take_Some in Hj as [Hj Hlt].
      destruct (Hearlier j x Hlt Hj) as [Hport Hunbound].
      unfold bind. by rewrite bindOn_other.
  - intros dstAddr' Hport. by apply GetChannelBind_port_only.
Qed.

End RelayServerFacts.

(** * The properties on the sample registry *)

Section SampleFacts.

Import Sample.

Lemma Sample_one_reachable : reachable one.
Proof.
  apply reachable_Start; [apply reachable_init|].
  intros listener listeningAddr _ _ s Hs. by apply elem_of_nil in Hs.
Qed.

Lemma Sample_two_reachable : reachable two.
Proof.
  apply reachable_Start; [apply Sample_one_reachable|].
  intros listener listeningAddr [= <-] [= <-] s Hs.
  apply list_elem_of_singleton in Hs. by subst s.
Qed.

Lemma Sample_two_bound_reachable : reachable two_bound.
Proof. apply reachable_AddChannelBind, Sample_two_reachable. Qed.

(** On the registry where client A has bound channel 0x4000 to peer X
    (port 9000), client B binds the same channel to peer Y (port 9000 too)
    on its own port; resolving the channel with port 9000 gives client A. *)
Lemma bindThenResolve_fails :
  reachable two_bound ∧
  (listeningPort <$> two_bound !! 1%nat) = Some 50001 ∧
  (SrcAddr ∘ server_FiveTuple <$> two_bound !! 1%nat) = Some clientB ∧
  GetChannelBind (AddChannelBind two_bound 50001 16384 peerY).1 (Port peerY) 16384 =
    (Some clientA, true) ∧
  ¬ bindThenResolve two_bound 1.
Proof.
  split; [apply Sample_two_bound_reachable|].
  split; [reflexivity|]. split; [reflexivity|]. split; [reflexivity|].
  intros Hclaim.
  specialize (Hclaim _ 16384 peerY eq_refl). vm_compute in Hclaim. discriminate.
Qed.

(** C1 on the registry of the two clients: client A, registered first,
    binds channel 0x4000 to peer X and resolves it to itself. *)

Lemma bind_then_resolve_witness :
  GetChannelBind (AddChannelBind two 50000 16384 peerX).1 9000 16384 =
    (Some clientA, true).
Proof.
  refine (proj1 (proj2 (bind_then_resolve two 0 _ 16384 peerX eq_refl)) _).
  intros j x Hj. lia.
Defined.

(** C2 for client A and peer 1.2.3.4:9000, granted for 300 and then for
    600 seconds. *)
Lemma AddPermission_idempotent_witness :
  ∃ s0 s1,
    two !! 0%nat = Some s0 ∧
    (AddPermission two tupleA (permission 300)).1 !! 0%nat = Some s1 ∧
    entriesFor (permission 300) (permissions s1) = 1%nat ∧
    AddPermission (AddPermission two tupleA (permission 300)).1 tupleA (permission 600) =
      ((AddPermission two tupleA (permission 300)).1, None) ∧
    (entriesFor (permission 300) (permissions s0) ≠ 0%nat →
       AddPermission two tupleA (permission 300) = (two, None)).
Proof.
  apply (AddPermission_idempotent two tupleA (permission 300) (permission 600) 0).
  - apply Sample_two_reachable.
  - reflexivity.
  - reflexivity.
Defined.

(** C4 for client B. *)
Lemma relay_round_trip_witness :
  ∃ port,
    GetRelayForSrc two clientB = (port, None) ∧
    ∀ a, Port a = port →
      ∃ src, GetSrcForRelay two a = (Some src, None) ∧ sameAddr src clientB.
Proof.
  refine (relay_round_trip two _ Sample_two_reachable (list_elem_of_lookup_2 two 1 _ eq_refl)).
Defined.

(** C5 for port 60000, on which neither server listens. *)
Lemma AddChannelBind_unknown_port_witness :
  AddChannelBind two 60000 16384 peerX = (two, None) ∧
  ∀ (fiveTuple : FiveTuple) (p : Permission),
    (∀ s, s ∈ two → match_ fiveTuple (server_FiveTuple s) = false) →
    AddPermission two fiveTuple p = (two, Some serverNotFound).
Proof.
  apply (AddChannelBind_unknown_port two 60000 16384 peerX).
  intros s Hs.
  apply elem_of_cons in Hs as [->|Hs]; [done|].
  apply list_elem_of_singleton in Hs. by subst s.
Defined.

(** C9 when the socket cannot be opened. *)
Lemma Start_failure_atomic_witness :
  Start two tupleA "tokenA" 600 "alice"
    (inr (Errorf "listen udp :0: too many open files" [])) NewTransportAddr =
    {| Started_servers := two; Started_go := None; Started_listeningPort := 0;
       Started_err := Some (Errorf "listen udp :0: too many open files" []) |}.
Proof.
  apply Start_failure_atomic. by left.
Defined.

(** C10 for a failed read with a nil source address, once and followed by
    another read. *)
Lemma relayIteration_failed_read_witness :
  relayIteration serverA failedRead = ([Println "Failing to relay"], Panicked) ∧
  relayHandler serverA [failedRead; failedRead] =
    ([Println "Failing to relay"], Panicked).
Proof.
  pose proof (relayIteration_failed_read serverA failedRead _ eq_refl)
    as (Hnil & _ & Hloop).
  split; [by apply Hnil | by apply Hloop].
Defined.

End SampleFacts.

(** * Further properties of the operations *)

Section RelayServerMore.

Context {net_IP : Type} `{!NetIP net_IP}.

Implicit Types (a b c : @TransportAddr net_IP) (s : @server net_IP)
  (servers : list (@server net_IP)).

(** ** Scans of a registry that grows at its end *)

Lemma match_refl (fiveTuple : FiveTuple) : match_ fiveTuple fiveTuple = true.
Proof.
  unfold match_. rewrite !Equal_refl. by destruct (FiveTuple_Protocol fiveTuple).
Qed.

Lemma firstWith_app_l (test : server → bool) servers more s :
  firstWith test servers s → firstWith test (servers ++ more) s.
Proof.
  intros (before & rest & -> & Ht & Hbefore).
  exists before, (rest ++ more). split; [by rewrite <-app_assoc | done].
Qed.

Lemma firstWith_app_r (test : server → bool) servers more s :
  (∀ x, x ∈ servers → test x = false) →
  firstWith test more s → firstWith test (servers ++ more) s.
Proof.
  intros Hnone (before & rest & -> & Ht & Hbefore).
  exists (servers ++ before), rest. split; [by rewrite <-app_assoc|]. split; [done|].
  intros x Hx. apply elem_of_app in Hx as [Hx|Hx]; [by apply Hnone | by apply Hbefore].
Qed.

Lemma GetSrcForRelay_found servers a :
  (GetSrcForRelay servers a).2 = None →
  ∃ s, firstWith (listensOn (Port a)) servers s.
Proof.
  intros Hok.
  destruct (firstWith_or_none (listensOn (Port a)) servers) as [Hs|Hnone]; [done|].
  apply portFree_listensOn in Hnone. by rewrite (GetSrcForRelay_none _ _ Hnone) in Hok.
Qed.

Lemma GetRelayForSrc_found servers a :
  (GetRelayForSrc servers a).2 = None →
  ∃ s, firstWith (allocatedTo a) servers s.
Proof.
  intros Hok.
  destruct (firstWith_or_none (allocatedTo a) servers) as [Hs|Hnone]; [done|].
  by rewrite (GetRelayForSrc_none _ _ Hnone) in Hok.
Qed.

Lemma GetChannelBind_none servers srcPort channel :
  (∀ s, s ∈ servers → boundTo srcPort channel s = false) →
  GetChannelBind servers srcPort channel = (None, false).
Proof.
  induction servers as [|x servers IH]; intros Hnone; [done|]. simpl.
  rewrite (Hnone x) by left. apply IH. intros s Hs. apply Hnone. by right.
Qed.

Lemma GetChannelBind_found servers srcPort channel :
  (GetChannelBind servers srcPort channel).2 = true →
  ∃ s, firstWith (boundTo srcPort channel) servers s.
Proof.
  intros Hok.
  destruct (firstWith_or_none (boundTo srcPort channel) servers) as [Hs|Hnone]; [done|].
  by rewrite (GetChannelBind_none _ _ _ Hnone) in Hok.
Qed.

(** X1: a lookup that succeeds keeps its answer when servers are
    registered after it: [GetSrcForRelay], [GetRelayForSrc] and
    [GetChannelBind] stop at the first server that passes their test, so
    the servers appended by later calls of [Start] are not reached. *)
Theorem lookups_stable_under_append servers more a srcPort channel :
  ((GetSrcForRelay servers a).2 = None →
     GetSrcForRelay (servers ++ more) a = GetSrcForRelay servers a) ∧
  ((GetRelayForSrc servers a).2 = None →
     GetRelayForSrc (servers ++ more) a = GetRelayForSrc servers a) ∧
  ((GetChannelBind servers srcPort channel).2 = true →
     GetChannelBind (servers ++ more) srcPort channel =
       GetChannelBind servers srcPort channel).
Proof.
  split; [|split]; intros Hok.
  - destruct (GetSrcForRelay_found _ _ Hok) as [s Hs].
    rewrite (GetSrcForRelay_first _ _ _ Hs).
    by apply GetSrcForRelay_first, firstWith_app_l.
  - destruct (GetRelayForSrc_found _ _ Hok) as [s Hs].
    rewrite (GetRelayForSrc_first _ _ _ Hs).
    by apply GetRelayForSrc_first, firstWith_app_l.
  - destruct (GetChannelBind_found _ _ _ Hok) as [s Hs].
    rewrite (GetChannelBind_first _ _ _ _ Hs).
    by apply GetChannelBind_first, firstWith_app_l.
Qed.

(** ** Start and the lookups *)


(** X3: when [Start] succeeds on a port that no registered server listens
    on, [GetSrcForRelay] on the returned port gives the source address of
    the new five-tuple; and when no registered server has that source
    address, [GetRelayForSrc] on it gives the returned port. *)
Theorem Start_then_lookups servers (fiveTuple : FiveTuple) token lifetime user
    listener (NewTransportAddr : net_Addr → TransportAddr + error) listeningAddr a :
  NewTransportAddr (LocalAddr listener) = inl listeningAddr →
  Port a =
    Started_listeningPort (Start servers fiveTuple token lifetime user (inl listener) NewTransportAddr) →
  (portFree servers (Port listeningAddr) →
     GetSrcForRelay
       (Started_servers (Start servers fiveTuple token lifetime user (inl listener) NewTransportAddr))
       a = (Some (SrcAddr fiveTuple), None)) ∧
  ((∀ s, s ∈ servers → Equal (SrcAddr (server_FiveTuple s)) (SrcAddr fiveTuple) = false) →
     GetRelayForSrc
       (Started_servers (Start servers fiveTuple token lifetime user (inl listener) NewTransportAddr))
       (SrcAddr fiveTuple) = (Port a, None)).
Proof.
  intros Haddr. unfold Start. rewrite Haddr. simpl. intros Hport. split.
  - intros Hfree.
    match goal with |- context [servers ++ [?x]] =>
      rewrite (GetSrcForRelay_first _ _ x); [done|] end.
    apply firstWith_app_r.
    + apply portFree_listensOn. by rewrite Hport.
    + apply firstWith_here. unfold listensOn. simpl. by apply Z.eqb_eq.
  - intros Hnew.
    match goal with |- context [servers ++ [?x]] =>
      rewrite (GetRelayForSrc_first _ _ x); [by rewrite Hport|] end.
    apply firstWith_app_r; [done|].
    apply firstWith_here. unfold allocatedTo. simpl. apply Equal_refl.
Qed.


(** X4: two successful calls of [Start] for one five-tuple leave two
    servers.  For a source address that was new, [GetRelayForSrc] keeps
    answering with the port of the first, while [getServer], and so
    [AddPermission], go to the second: the permission is stored on the
    second server and the first one stays as it was. *)
Theorem Start_twice_lookups servers (fiveTuple : FiveTuple)
    token1 lifetime1 user1 listener1 token2 lifetime2 user2 listener2
    (NewTransportAddr : net_Addr → TransportAddr + error) addr1 addr2
    (permission : Permission) :
  NewTransportAddr (LocalAddr listener1) = inl addr1 →
  NewTransportAddr (LocalAddr listener2) = inl addr2 →
  (∀ s, s ∈ servers → Equal (SrcAddr (server_FiveTuple s)) (SrcAddr fiveTuple) = false) →
  ∀ servers2,
    servers2 =
      run servers
        [call_Start fiveTuple token1 lifetime1 user1 (inl listener1) NewTransportAddr;
         call_Start fiveTuple token2 lifetime2 user2 (inl listener2) NewTransportAddr] →
    GetRelayForSrc servers2 (SrcAddr fiveTuple) = (Port addr1, None) ∧
    getServer servers2 fiveTuple = Some (S (length servers)) ∧
    listeningPort <$> servers2 !! S (length servers) = Some (Port addr2) ∧
    (AddPermission servers2 fiveTuple permission).1 !! length servers =
      servers2 !! length servers ∧
    permissions <$> (AddPermission servers2 fiveTuple permission).1 !! S (length servers) =
      Some [permission].
Proof.
  intros Haddr1 Haddr2 Hnew servers2 ->.
  unfold run. simpl. rewrite Haddr1, Haddr2. simpl.
  match goal with |- context [(servers ++ [?x]) ++ [?y]] =>
    set (s1 := x); set (s2 := y) end.
  assert (length (servers ++ [s1]) = S (length servers)) as Hlen
    by (rewrite length_app; simpl; lia).
  assert (getServer ((servers ++ [s1]) ++ [s2]) fiveTuple = Some (S (length servers)))
    as Hget.
  { rewrite getServer_snoc. subst s2. simpl. by rewrite match_refl, Hlen. }
  assert (((servers ++ [s1]) ++ [s2]) !! S (length servers) = Some s2) as Hs2.
  { rewrite <-Hlen. by apply list_lookup_middle. }
  split; [|split; [done|split; [|split]]].
  - rewrite (GetRelayForSrc_first _ _ s1); [done|].
    apply firstWith_app_l, firstWith_app_r; [done|].
    apply firstWith_here. unfold allocatedTo. simpl. apply Equal_refl.
  - by rewrite Hs2.
  - unfold AddPermission. rewrite Hget. simpl.
    rewrite list_lookup_alter_ne; [done | lia].
  - unfold AddPermission. rewrite Hget. simpl.
    by rewrite list_lookup_alter_eq, Hs2.
Qed.

(** ** What each update leaves alone *)

(** Two servers that the lookups by port and by source cannot tell apart. *)
Lemma GetSrcForRelay_ext (ss ss' : list server) a :
  Forall2 (λ s s', listeningPort s = listeningPort s' ∧
                   server_FiveTuple s = server_FiveTuple s') ss ss' →
  GetSrcForRelay ss a = GetSrcForRelay ss' a.
Proof.
  induction 1 as [|s s' ss ss' [Hport Htuple] _ IH]; [done|]. simpl.
  by rewrite Hport, Htuple, IH.
Qed.

Lemma GetRelayForSrc_ext (ss ss' : list server) a :
  Forall2 (λ s s', listeningPort s = listeningPort s' ∧
                   server_FiveTuple s = server_FiveTuple s') ss ss' →
  GetRelayForSrc ss a = GetRelayForSrc ss' a.
Proof.
  induction 1 as [|s s' ss ss' [Hport Htuple] _ IH]; [done|]. simpl.
  by rewrite Hport, Htuple, IH.
Qed.

Lemma GetChannelBind_ext (ss ss' : list server) srcPort channel :
  Forall2 (λ s s', boundTo srcPort channel s = boundTo srcPort channel s' ∧
                   server_FiveTuple s = server_FiveTuple s') ss ss' →
  GetChannelBind ss srcPort channel = GetChannelBind ss' srcPort channel.
Proof.
  induction 1 as [|s s' ss ss' [Hbound Htuple] _ IH]; [done|]. simpl.
  by rewrite Hbound, Htuple, IH.
Qed.

Lemma Forall2_alter_self (R : relation (@server net_IP)) (f : server → server) i servers :
  (∀ s, R s s) → (∀ s, R (f s) s) → Forall2 R (alter f i servers) servers.
Proof.
  intros Hrefl Hf. revert i.
  induction servers as [|x servers IH]; intros [|i]; simpl; try constructor; try done.
  - by apply Forall_Forall2_diag, Forall_forall.
  - apply IH.
Qed.

Lemma Forall2_fmap_self (R : relation (@server net_IP)) (f : server → server) servers :
  (∀ s, R (f s) s) → Forall2 R (f <$> servers) servers.
Proof.
  intros Hf. induction servers as [|x servers IH]; simpl; by constructor.
Qed.

Lemma server_FiveTuple_appendPermission permission s :
  server_FiveTuple (appendPermission permission s) = server_FiveTuple s.
Proof. unfold appendPermission. by destruct (hasPermission _ _). Qed.

Lemma channelBindings_appendPermission permission s :
  channelBindings (appendPermission permission s) = channelBindings s.
Proof. unfold appendPermission. by destruct (hasPermission _ _). Qed.

Lemma server_FiveTuple_bindOn relayPort channel dstAddr s :
  server_FiveTuple (bindOn relayPort channel dstAddr s) = server_FiveTuple s.
Proof. unfold bindOn. by destruct (_ =? _). Qed.

Lemma permissions_bindOn relayPort channel dstAddr s :
  permissions (bindOn relayPort channel dstAddr s) = permissions s.
Proof. unfold bindOn. by destruct (_ =? _). Qed.

(** X5: [AddPermission] changes no answer of the lookups: after it,
    [getServer], [GetSrcForRelay], [GetRelayForSrc] and [GetChannelBind]
    return what they returned before, and the registry has the same
    length. *)
Theorem AddPermission_lookups_unchanged servers (fiveTuple fiveTuple' : FiveTuple)
    (permission : Permission) a srcPort channel :
  length (AddPermission servers fiveTuple permission).1 = length servers ∧
  getServer (AddPermission servers fiveTuple permission).1 fiveTuple' =
    getServer servers fiveTuple' ∧
  GetSrcForRelay (AddPermission servers fiveTuple permission).1 a =
    GetSrcForRelay servers a ∧
  GetRelayForSrc (AddPermission servers fiveTuple permission).1 a =
    GetRelayForSrc servers a ∧
  GetChannelBind (AddPermission servers fiveTuple permission).1 srcPort channel =
    GetChannelBind servers srcPort channel.
Proof.
  unfold AddPermission. destruct (getServer servers fiveTuple) as [i|]; [|done]. simpl.
  split; [apply length_alter|]. split; [apply getServer_alter_appendPermission|].
  split; [|split].
  - apply GetSrcForRelay_ext, Forall2_alter_self; [done|]. intros s.
    by rewrite listeningPort_appendPermission, server_FiveTuple_appendPermission.
  - apply GetRelayForSrc_ext, Forall2_alter_self; [done|]. intros s.
    by rewrite listeningPort_appendPermission, server_FiveTuple_appendPermission.
  - apply GetChannelBind_ext, Forall2_alter_self; [done|]. intros s.
    unfold boundTo.
    by rewrite channelBindings_appendPermission, server_FiveTuple_appendPermission.
Qed.

Lemma boundTo_bindOn_other srcPort relayPort channel channel' dstAddr s :
  channel ≠ channel' →
  boundTo srcPort channel' (bindOn relayPort channel dstAddr s) = boundTo srcPort channel' s.
Proof.
  intros Hne. unfold bindOn. destruct (_ =? _); [|done].
  unfold boundTo. simpl. by rewrite lookup_insert_ne.
Qed.

(** X6: [AddChannelBind] changes no answer of [getServer],
    [GetSrcForRelay] or [GetRelayForSrc], changes no permission list and
    not the length of the registry, and leaves [GetChannelBind] for every
    other channel as it was. *)
Theorem AddChannelBind_lookups_unchanged servers relayPort channel dstAddr
    (fiveTuple : FiveTuple) a srcPort channel' :
  length (AddChannelBind servers relayPort channel dstAddr).1 = length servers ∧
  permissions <$> (AddChannelBind servers relayPort channel dstAddr).1 =
    permissions <$> servers ∧
  getServer (AddChannelBind servers relayPort channel dstAddr).1 fiveTuple =
    getServer servers fiveTuple ∧
  GetSrcForRelay (AddChannelBind servers relayPort channel dstAddr).1 a =
    GetSrcForRelay servers a ∧
  GetRelayForSrc (AddChannelBind servers relayPort channel dstAddr).1 a =
    GetRelayForSrc servers a ∧
  (channel ≠ channel' →
   GetChannelBind (AddChannelBind servers relayPort channel dstAddr).1 srcPort channel' =
     GetChannelBind servers srcPort channel').
Proof.
  simpl. split; [apply length_fmap|].
  split; [apply fmap_fmap_preserved, permissions_bindOn|].
  split; [|split; [|split]].
  - apply getServer_range_FiveTuples, fmap_fmap_preserved, server_FiveTuple_bindOn.
  - apply GetSrcForRelay_ext, Forall2_fmap_self. intros s.
    by rewrite listeningPort_bindOn, server_FiveTuple_bindOn.
  - apply GetRelayForSrc_ext, Forall2_fmap_self. intros s.
    by rewrite listeningPort_bindOn, server_FiveTuple_bindOn.
  - intros Hne. apply GetChannelBind_ext, Forall2_fmap_self. intros s.
    by rewrite boundTo_bindOn_other, server_FiveTuple_bindOn.
Qed.


(** ** Granting permissions *)

Lemma hasPermission_snoc ps (permission : Permission) :
  hasPermission (ps ++ [permission]) permission = true.
Proof.
  destruct (hasPermission (ps ++ [permission]) permission) eqn:Hhas; [done|].
  apply hasPermission_entriesFor in Hhas. rewrite entriesFor_app in Hhas.
  simpl in Hhas. rewrite samePeer_refl in Hhas. lia.
Qed.

(** X7: when [getServer] finds server [i] for the five-tuple,
    [AddPermission] leaves every other server as it was; on server [i] the
    peer has a permission afterwards, the list is the old one or the old one
    with the new permission at its end, and nothing else of the server
    changes. *)
Theorem AddPermission_grants servers (fiveTuple : FiveTuple)
    (permission : Permission) i :
  getServer servers fiveTuple = Some i →
  (∀ j, j ≠ i → (AddPermission servers fiveTuple permission).1 !! j = servers !! j) ∧
  ∃ s s',
    servers !! i = Some s ∧
    (AddPermission servers fiveTuple permission).1 !! i = Some s' ∧
    hasPermission (permissions s') permission = true ∧
    (permissions s' = permissions s ∨ permissions s' = permissions s ++ [permission]) ∧
    s' = set_permissions (permissions s') s.
Proof.
  intros Hget.
  pose proof (proj1 (getServer_Some _ _ _) Hget) as [(s & Hs & _) _].
  unfold AddPermission. rewrite Hget. simpl. split.
  - intros j Hj. by apply list_lookup_alter_ne.
  - exists s, (appendPermission permission s).
    split; [done|]. split; [by rewrite list_lookup_alter_eq, Hs|].
    unfold appendPermission.
    destruct (hasPermission (permissions s) permission) eqn:Hhas.
    + split; [done|]. split; [by left|]. by destruct s.
    + simpl. split; [apply hasPermission_snoc|]. split; [by right | done].
Qed.

(** ** Binding channels *)

Lemma appendPermission_bindOn permission relayPort channel dstAddr s :
  appendPermission permission (bindOn relayPort channel dstAddr s) =
    bindOn relayPort channel dstAddr (appendPermission permission s).
Proof.
  unfold appendPermission, bindOn.
  destruct (listeningPort s =? relayPort) eqn:Hport; simpl;
    destruct (hasPermission (permissions s) permission); simpl;
    by rewrite ?Hport.
Qed.

(** X8: [AddPermission] and [AddChannelBind] commute: in either order
    they leave the same registry, and [AddPermission] returns the same
    error. *)
Theorem AddPermission_AddChannelBind_commute servers (fiveTuple : FiveTuple)
    (permission : Permission) relayPort channel dstAddr :
  (AddPermission (AddChannelBind servers relayPort channel dstAddr).1
     fiveTuple permission).1 =
    (AddChannelBind (AddPermission servers fiveTuple permission).1
       relayPort channel dstAddr).1 ∧
  (AddPermission (AddChannelBind servers relayPort channel dstAddr).1
     fiveTuple permission).2 =
    (AddPermission servers fiveTuple permission).2.
Proof.
  unfold AddPermission. simpl.
  replace (getServer (bindOn relayPort channel dstAddr <$> servers) fiveTuple)
    with (getServer servers fiveTuple).
  2:{ symmetry. apply getServer_range_FiveTuples, fmap_fmap_preserved,
        server_FiveTuple_bindOn. }
  destruct (getServer servers fiveTuple) as [i|]; simpl; [|done].
  split; [|done]. symmetry. apply list_fmap_alter, Forall_forall. intros s _.
  symmetry. apply appendPermission_bindOn.
Qed.

Lemma bindOn_bindOn relayPort channel dstAddr dstAddr' s :
  bindOn relayPort channel dstAddr' (bindOn relayPort channel dstAddr s) =
    bindOn relayPort channel dstAddr' s.
Proof.
  unfold bindOn. destruct (listeningPort s =? relayPort) eqn:Hport; simpl;
    rewrite Hport; [|done].
  unfold set_channelBindings. simpl. by rewrite insert_insert_eq.
Qed.

Lemma bindOn_commute relayPort relayPort' channel channel' dstAddr dstAddr' s :
  channel ≠ channel' →
  bindOn relayPort' channel' dstAddr' (bindOn relayPort channel dstAddr s) =
    bindOn relayPort channel dstAddr (bindOn relayPort' channel' dstAddr' s).
Proof.
  intros Hne. unfold bindOn.
  destruct (listeningPort s =? relayPort) eqn:Hport,
           (listeningPort s =? relayPort') eqn:Hport'; simpl;
    rewrite ?Hport, ?Hport'; try done.
  unfold set_channelBindings. simpl. f_equal. by apply insert_insert_ne.
Qed.

(** X9: binding a channel again on the same port overwrites the binding:
    the registry is the one the second call alone produces (so binding the
    same address twice is binding it once); bindings of different channels
    can be made in either order. *)
Theorem AddChannelBind_overwrites servers relayPort channel dstAddr dstAddr' :
  AddChannelBind (AddChannelBind servers relayPort channel dstAddr).1
    relayPort channel dstAddr' =
    AddChannelBind servers relayPort channel dstAddr' ∧
  ∀ relayPort' channel' dstAddr'', channel ≠ channel' →
    AddChannelBind (AddChannelBind servers relayPort channel dstAddr).1
      relayPort' channel' dstAddr'' =
    AddChannelBind (AddChannelBind servers relayPort' channel' dstAddr'').1
      relayPort channel dstAddr.
Proof.
  unfold AddChannelBind. simpl. split.
  - f_equal. rewrite <-list_fmap_compose. apply list_fmap_ext.
    intros _ s _. apply bindOn_bindOn.
  - intros relayPort' channel' dstAddr'' Hne. f_equal.
    rewrite <-!list_fmap_compose. apply list_fmap_ext.
    intros _ s _. by apply bindOn_commute.
Qed.

(** X10: once a channel is bound again to an address with another port,
    the old port no longer resolves on that channel, unless a server on
    another relay port holds such a binding. *)
Theorem rebind_drops_old_port servers relayPort channel dstAddr dstAddr' :
  Port dstAddr' ≠ Port dstAddr →
  (∀ s, s ∈ servers → listeningPort s ≠ relayPort →
        boundTo (Port dstAddr) channel s = false) →
  GetChannelBind
    (AddChannelBind (AddChannelBind servers relayPort channel dstAddr).1
       relayPort channel dstAddr').1
    (Port dstAddr) channel = (None, false).
Proof.
  intros Hports Hothers. apply GetChannelBind_none.
  intros s' Hs'. simpl in Hs'. rewrite <-list_fmap_compose in Hs'.
  apply list_elem_of_fmap in Hs' as (s & -> & Hs). simpl.
  rewrite bindOn_bindOn, boundTo_bindOn.
  destruct (Z.eqb_spec (listeningPort s) relayPort) as [Heq|Hne].
  - by apply Z.eqb_neq.
  - by apply Hothers.
Qed.

(** X11: [GetChannelBind] reports a binding exactly when some server holds
    one for the channel with that peer port, and it returns an address
    exactly when it reports a binding. *)
Theorem GetChannelBind_found_iff servers srcPort channel :
  ((GetChannelBind servers srcPort channel).2 = true ↔
     ∃ s, s ∈ servers ∧ boundTo srcPort channel s = true) ∧
  (GetChannelBind servers srcPort channel = (None, false) ↔
     ∀ s, s ∈ servers → boundTo srcPort channel s = false) ∧
  (is_Some (GetChannelBind servers srcPort channel).1 ↔
     (GetChannelBind servers srcPort channel).2 = true).
Proof.
  destruct (firstWith_or_none (boundTo srcPort channel) servers) as [[s Hs]|Hnone].
  - rewrite (GetChannelBind_first _ _ _ _ Hs). simpl.
    apply firstWith_elem in Hs as [Hin Hbound].
    split; [|split].
    + split; [|done]. intros _. by exists s.
    + split; [done|]. intros Hall. by rewrite (Hall s Hin) in Hbound.
    + split; [done | by eexists].
  - rewrite (GetChannelBind_none _ _ _ Hnone). simpl.
    split; [|split].
    + split; [done|]. intros (s & Hin & Hbound). by rewrite (Hnone s Hin) in Hbound.
    + done.
    + split; [by intros [? ?] | done].
Qed.

(** X12: in a reachable registry [AddChannelBind] on the port of the
    server at index [i] changes that server alone, and only its binding
    for the channel. *)
Theorem AddChannelBind_one_server servers i s channel dstAddr :
  reachable servers →
  servers !! i = Some s →
  (AddChannelBind servers (listeningPort s) channel dstAddr).1 =
    <[i := set_channelBindings
             (<[channel := {| addr := dstAddr |}]> (channelBindings s)) s]> servers.
Proof.
  intros Hreach Hs. simpl. apply list_eq. intros j.
  rewrite list_lookup_fmap.
  destruct (decide (i = j)) as [<-|Hne].
  - rewrite list_lookup_insert_eq by by eapply lookup_lt_Some.
    rewrite Hs. simpl. unfold bindOn. by rewrite Z.eqb_refl.
  - rewrite list_lookup_insert_ne by done.
    destruct (servers !! j) as [x|] eqn:Hx; [|done]. simpl. f_equal.
    apply bindOn_other. intros Hport. apply Hne.
    eapply (NoDup_lookup (listeningPort <$> servers)).
    + by apply reachable_ports_NoDup.
    + by rewrite list_lookup_fmap, Hs.
    + by rewrite list_lookup_fmap, Hx; simpl; rewrite Hport.
Qed.


(** ** Sequences of calls *)

Lemma grownFrom_refl s : grownFrom s s.
Proof. repeat split; done. Qed.

Lemma grownFrom_trans s1 s2 s3 : grownFrom s1 s2 → grownFrom s2 s3 → grownFrom s1 s3.
Proof.
  intros (H1 & H2 & H3 & H4 & H5 & H6 & H7) (K1 & K2 & K3 & K4 & K5 & K6 & K7).
  repeat split; try congruence.
  - by etrans.
  - intros channel Hc. by apply K7, H7.
Qed.

Lemma grownFrom_appendPermission permission s : grownFrom s (appendPermission permission s).
Proof.
  unfold appendPermission. destruct (hasPermission _ _); [apply grownFrom_refl|].
  repeat split; try done. simpl. by apply prefix_app_r.
Qed.

Lemma grownFrom_bindOn relayPort channel dstAddr s :
  grownFrom s (bindOn relayPort channel dstAddr s).
Proof.
  unfold bindOn. destruct (_ =? _); [|apply grownFrom_refl].
  repeat split; try done. simpl. intros channel' Hc.
  destruct (decide (channel = channel')) as [->|Hne].
  - rewrite lookup_insert_eq. by eexists.
  - by rewrite lookup_insert_ne.
Qed.

Lemma after_grownFrom servers (c : call) i s :
  servers !! i = Some s → ∃ s', after servers c !! i = Some s' ∧ grownFrom s s'.
Proof.
  intros Hs.
  destruct c as [fiveTuple token lifetime user lp nta|fiveTuple permission
                |relayPort channel dstAddr]; simpl.
  - exists s. split; [|apply grownFrom_refl]. unfold Start.
    destruct lp as [listener|err]; [|done].
    destruct (nta (LocalAddr listener)); [|done]. simpl. by apply lookup_app_l_Some.
  - unfold AddPermission.
    destruct (getServer servers fiveTuple) as [j|]; simpl.
    + destruct (decide (j = i)) as [->|Hne].
      * exists (appendPermission permission s).
        split; [by rewrite list_lookup_alter_eq, Hs | apply grownFrom_appendPermission].
      * exists s. split; [by rewrite list_lookup_alter_ne | apply grownFrom_refl].
    + exists s. split; [done | apply grownFrom_refl].
  - exists (bindOn relayPort channel dstAddr s).
    split; [by rewrite list_lookup_fmap, Hs | apply grownFrom_bindOn].
Qed.

(** X13: whatever calls follow, a registered server stays at its index
    with its five-tuple, port, token, user name and lifetime; the
    permissions it had stay at the front of its list, in order, and every
    channel it had bound stays bound.  Nothing is ever removed. *)
Theorem run_keeps_servers (calls : list call) servers i s :
  servers !! i = Some s →
  ∃ s', run servers calls !! i = Some s' ∧ grownFrom s s'.
Proof.
  revert servers s. induction calls as [|c calls IH]; intros servers s Hs.
  - exists s. split; [done | apply grownFrom_refl].
  - destruct (after_grownFrom servers c i s Hs) as (s1 & Hs1 & Hgrown1).
    destruct (IH (after servers c) s1 Hs1) as (s2 & Hs2 & Hgrown2).
    exists s2. split; [done | by eapply grownFrom_trans].
Qed.

Lemma Fulfilled_after servers (c : call) (fiveTuple : FiveTuple) :
  Fulfilled (after servers c) fiveTuple =
    Fulfilled servers fiveTuple || startedFor fiveTuple c.
Proof.
  destruct c as [started token lifetime user lp nta|fiveTuple' permission
                |relayPort channel dstAddr]; simpl.
  - unfold Start. destruct lp as [listener|err]; [|by rewrite orb_false_r].
    destruct (nta (LocalAddr listener)) as [listeningAddr|err];
      [|by rewrite orb_false_r].
    simpl. unfold Fulfilled. rewrite getServer_snoc. simpl.
    destruct (match_ fiveTuple started); [by rewrite orb_true_r | by rewrite orb_false_r].
  - rewrite orb_false_r. unfold Fulfilled, AddPermission.
    destruct (getServer servers fiveTuple') as [i|]; [|done]. simpl.
    by rewrite getServer_alter_appendPermission.
  - rewrite orb_false_r. unfold Fulfilled.
    replace (getServer (bindOn relayPort channel dstAddr <$> servers) fiveTuple)
      with (getServer servers fiveTuple); [done|].
    symmetry. apply getServer_range_FiveTuples, fmap_fmap_preserved,
      server_FiveTuple_bindOn.
Qed.

(** X14: after a sequence of calls [Fulfilled] is true for a five-tuple
    exactly when it was true before or one of the calls was a [Start] that
    succeeded for a five-tuple it matches.  In particular, on the empty
    registry it is false until such a [Start]. *)
Theorem Fulfilled_run (calls : list call) servers (fiveTuple : FiveTuple) :
  Fulfilled (run servers calls) fiveTuple =
    Fulfilled servers fiveTuple || existsb (startedFor fiveTuple) calls.
Proof.
  revert servers. induction calls as [|c calls IH]; intros servers.
  - simpl. by rewrite orb_false_r.
  - change (run servers (c :: calls)) with (run (after servers c) calls).
    rewrite IH, Fulfilled_after. simpl. by rewrite orb_assoc.
Qed.

(** X15: in every registry reachable from the empty one, no two servers
    listen on the same port and no permission list holds a peer twice. *)
Theorem reachable_invariants servers :
  reachable servers →
  NoDup (listeningPort <$> servers) ∧
  ∀ s (q : Permission), s ∈ servers → (entriesFor q (permissions s) ≤ 1)%nat.
Proof.
  intros Hreach. split; [by apply reachable_ports_NoDup | by apply reachable_peersOnce].
Qed.

(** ** The relay loop *)

Lemma relayIteration_source s s' (r : ReadFrom) :
  SrcAddr (server_FiveTuple s) = SrcAddr (server_FiveTuple s') →
  relayIteration s r = relayIteration s' r.
Proof. intros Hsrc. unfold relayIteration. by rewrite Hsrc. Qed.

Lemma relayHandler_source s s' (reads : list ReadFrom) :
  SrcAddr (server_FiveTuple s) = SrcAddr (server_FiveTuple s') →
  relayHandler s reads = relayHandler s' reads.
Proof.
  intros Hsrc. induction reads as [|r reads IH]; [done|]. simpl.
  by rewrite (relayIteration_source s s' r Hsrc), IH.
Qed.

(** X16: the relay loop consults neither the permissions nor the channel
    bindings of its server: with any other permission list and any other
    binding map it prints and sends exactly the same. *)
Theorem relayHandler_ignores_permissions s (ps : list Permission)
    (cbs : gmap Z ChannelBind) (reads : list ReadFrom) :
  relayHandler (set_permissions ps (set_channelBindings cbs s)) reads =
    relayHandler s reads.
Proof. by apply relayHandler_source. Qed.

Lemma relayHandler_cons_udp s (r : ReadFrom) reads u :
  asUDPAddr (ReadFrom_srcAddr r) = Some u →
  relayHandler s (r :: reads) =
    ((relayIteration s r).1 ++ (relayHandler s reads).1, (relayHandler s reads).2) ∧
  List.filter isSend (relayIteration s r).1 = [indication s r u].
Proof.
  intros Hu. simpl. unfold relayIteration. rewrite Hu.
  destruct (relayHandler s reads) as [events o].
  by destruct (ReadFrom_err r).
Qed.

(** X17: while every read returns a UDP source address, failed or not,
    the loop never stops: it ends waiting for the next read, and it has
    sent exactly one indication per read, in the order of the reads, each
    to the client of the server with the sender's address and the bytes
    read. *)
Theorem relayHandler_one_indication_per_read s (reads : list ReadFrom) :
  Forall (λ r, is_Some (asUDPAddr (ReadFrom_srcAddr r))) reads →
  (relayHandler s reads).2 = Blocked ∧
  List.filter isSend (relayHandler s reads).1 =
    omap (λ r, indication s r <$> asUDPAddr (ReadFrom_srcAddr r)) reads.
Proof.
  induction 1 as [|r reads [u Hu] _ [IHo IHe]]; [done|].
  destruct (relayHandler_cons_udp s r reads u Hu) as [-> Hsend].
  simpl. split; [done|].
  rewrite List.filter_app, Hsend, IHe, Hu. done.
Qed.

(** X18: the first read whose source address is not a UDP address ends the
    goroutine in a panic: one indication has been sent for each read before
    it, none for it, and the reads that would follow are never made. *)
Theorem relayHandler_panic_stops s (before rest : list ReadFrom) (r : ReadFrom) :
  Forall (λ r, is_Some (asUDPAddr (ReadFrom_srcAddr r))) before →
  asUDPAddr (ReadFrom_srcAddr r) = None →
  (relayHandler s (before ++ r :: rest)).2 = Panicked ∧
  relayHandler s (before ++ r :: rest) = relayHandler s (before ++ [r]) ∧
  List.filter isSend (relayHandler s (before ++ r :: rest)).1 =
    omap (λ r, indication s r <$> asUDPAddr (ReadFrom_srcAddr r)) before.
Proof.
  intros Hbefore Hr.
  induction Hbefore as [|x before [u Hu] _ (IHo & IHeq & IHe)].
  - simpl. unfold relayIteration. rewrite Hr. by destruct (ReadFrom_err r).
  - rewrite <-!app_comm_cons.
    destruct (relayHandler_cons_udp s x (before ++ r :: rest) u Hu) as [-> Hsend].
    destruct (relayHandler_cons_udp s x (before ++ [r]) u Hu) as [-> _].
    simpl. split; [done|]. split; [by rewrite IHeq|].
    rewrite List.filter_app, Hsend, IHe, Hu. done.
Qed.


(** X19: in a reachable registry, for a server whose source address no
    other server has, the round trip from its port holds too:
    [GetSrcForRelay] on its port gives its source address and
    [GetRelayForSrc] on that address gives its port back. *)
Theorem port_round_trip servers s a :
  reachable servers → s ∈ servers →
  (∀ x, x ∈ servers →
        Equal (SrcAddr (server_FiveTuple x)) (SrcAddr (server_FiveTuple s)) = true →
        x = s) →
  Port a = listeningPort s →
  GetSrcForRelay servers a = (Some (SrcAddr (server_FiveTuple s)), None) ∧
  GetRelayForSrc servers (SrcAddr (server_FiveTuple s)) = (listeningPort s, None).
Proof.
  intros Hreach Hs Honly Hport. split.
  - apply GetSrcForRelay_server; [by apply reachable_ports_NoDup | done | done].
  - destruct (firstWith_or_none (allocatedTo (SrcAddr (server_FiveTuple s))) servers)
      as [[x Hfirst]|Hnone].
    + rewrite (GetRelayForSrc_first _ _ _ Hfirst).
      apply firstWith_elem in Hfirst as [Hx Hequal].
      by rewrite (Honly x Hx Hequal).
    + specialize (Hnone s Hs). unfold allocatedTo in Hnone.
      by rewrite Equal_refl in Hnone.
Qed.

End RelayServerMore.

(** * The further properties on the sample registry *)

Section SampleMore.

Import Sample.

Lemma Sample_two_elems (s : server) : s ∈ two → s = serverA ∨ s = serverB.
Proof.
  intros Hs. apply elem_of_cons in Hs as [->|Hs]; [by left|].
  apply list_elem_of_singleton in Hs. by right.
Qed.


(** X3 for the [Start] of client B on port 50001. *)
Lemma Start_then_lookups_witness :
  GetSrcForRelay two relayB = (Some clientB, None) ∧
  GetRelayForSrc two clientB = (50001, None).
Proof.
  pose proof (Start_then_lookups one tupleB "tokenB" 600 "bob" (socket 50001)
                NewTransportAddr relayB relayB eq_refl eq_refl) as [Hsrc Hrelay].
  split.
  - apply Hsrc. intros s Hs. apply list_elem_of_singleton in Hs. by subst s.
  - apply Hrelay. intros s Hs. apply list_elem_of_singleton in Hs. by subst s.
Defined.

(** X4 for client A starting twice on an empty registry. *)
Lemma Start_twice_lookups_witness :
  GetRelayForSrc
    (run [] [call_Start tupleA "t1" 600 "alice" (inl (socket 50000)) NewTransportAddr;
             call_Start tupleA "t2" 600 "alice" (inl (socket 50001)) NewTransportAddr])
    clientA = (50000, None) ∧
  getServer
    (run [] [call_Start tupleA "t1" 600 "alice" (inl (socket 50000)) NewTransportAddr;
             call_Start tupleA "t2" 600 "alice" (inl (socket 50001)) NewTransportAddr])
    tupleA = Some 1%nat.
Proof.
  pose proof (Start_twice_lookups [] tupleA "t1" 600 "alice" (socket 50000)
                "t2" 600 "alice" (socket 50001) NewTransportAddr
                {| IP := [0; 0; 0; 0]; Port := 50000 |} relayB (permission 300)
                eq_refl eq_refl) as Htwice.
  destruct (Htwice (λ s Hs, False_ind _ (proj1 (elem_of_nil s) Hs)) _ eq_refl)
    as (Hrelay & Hget & _).
  split; [exact Hrelay | exact Hget].
Defined.

(** X7 for a first permission of client A. *)
Lemma AddPermission_grants_witness :
  (∀ j, j ≠ 0%nat → (AddPermission two tupleA (permission 300)).1 !! j = two !! j) ∧
  ∃ s s',
    two !! 0%nat = Some s ∧
    (AddPermission two tupleA (permission 300)).1 !! 0%nat = Some s' ∧
    hasPermission (permissions s') (permission 300) = true ∧
    (permissions s' = permissions s ∨ permissions s' = permissions s ++ [permission 300]) ∧
    s' = set_permissions (permissions s') s.
Proof.
  apply (AddPermission_grants two tupleA (permission 300) 0). reflexivity.
Defined.

(** X10 for client A moving channel 0x4000 from peer X to peer Z. *)
Lemma rebind_drops_old_port_witness :
  GetChannelBind
    (AddChannelBind (AddChannelBind two 50000 16384 peerX).1 50000 16384 peerZ).1
    9000 16384 = (None, false).
Proof.
  apply (rebind_drops_old_port two 50000 16384 peerX peerZ).
  - simpl. lia.
  - intros s Hs _. by destruct (Sample_two_elems s Hs) as [->| ->].
Defined.

(** X12 for client A binding channel 0x4000. *)
Lemma AddChannelBind_one_server_witness :
  (AddChannelBind two 50000 16384 peerX).1 =
    <[0%nat := set_channelBindings
                 (<[16384 := {| addr := peerX |}]> (channelBindings serverA)) serverA]> two.
Proof.
  apply (AddChannelBind_one_server two 0 serverA 16384 peerX Sample_two_reachable).
  reflexivity.
Defined.

(** X13 for client A's server through a permission and a binding. *)
Lemma run_keeps_servers_witness :
  ∃ s', run two [call_AddPermission tupleA (permission 300);
                 call_AddChannelBind 50000 16384 peerX] !! 0%nat = Some s' ∧
        grownFrom serverA s'.
Proof.
  apply (run_keeps_servers _ two 0 serverA). reflexivity.
Defined.

(** X15 on the registry of the two clients. *)
Lemma reachable_invariants_witness :
  NoDup (listeningPort <$> two) ∧
  ∀ s (q : Permission), s ∈ two → (entriesFor q (permissions s) ≤ 1)%nat.
Proof.
  apply (reachable_invariants two Sample_two_reachable).
Defined.

(** X17 for a datagram followed by a failed read that names its sender. *)
Lemma relayHandler_one_indication_per_read_witness :
  (relayHandler serverA [datagram; failedDatagram]).2 = Blocked ∧
  List.filter isSend (relayHandler serverA [datagram; failedDatagram]).1 =
    omap (λ r, indication serverA r <$> asUDPAddr (ReadFrom_srcAddr r))
      [datagram; failedDatagram].
Proof.
  apply (relayHandler_one_indication_per_read serverA [datagram; failedDatagram]).
  repeat constructor; by eexists.
Defined.

(** X18 for a datagram, a failed read without sender, and a datagram that
    is never read. *)
Lemma relayHandler_panic_stops_witness :
  (relayHandler serverA ([datagram] ++ failedRead :: [datagram])).2 = Panicked ∧
  relayHandler serverA ([datagram] ++ failedRead :: [datagram]) =
    relayHandler serverA ([datagram] ++ [failedRead]) ∧
  List.filter isSend (relayHandler serverA ([datagram] ++ failedRead :: [datagram])).1 =
    omap (λ r, indication serverA r <$> asUDPAddr (ReadFrom_srcAddr r)) [datagram].
Proof.
  apply (relayHandler_panic_stops serverA [datagram] [datagram] failedRead).
  - repeat constructor; by eexists.
  - reflexivity.
Defined.

(** X19 for client B. *)
Lemma port_round_trip_witness :
  GetSrcForRelay two relayB = (Some clientB, None) ∧
  GetRelayForSrc two clientB = (50001, None).
Proof.
  apply (port_round_trip two serverB relayB Sample_two_reachable).
  - apply elem_of_cons. right. by apply list_elem_of_singleton.
  - intros x Hx Hequal. destruct (Sample_two_elems x Hx) as [->| ->]; [|done].
    vm_compute in Hequal. discriminate.
  - reflexivity.
Defined.

End SampleMore.

(** * Adding a permission when two servers match *)

Section SampleDuplicate.

Import Sample.

Lemma Sample_twiceA_reachable : reachable twiceA.
Proof.
  apply reachable_Start; [apply Sample_one_reachable|].
  intros listener listeningAddr [= <-] [= <-] s Hs.
  apply list_elem_of_singleton in Hs. by subst s.
Qed.

(** C2 read for every matching server fails: client A has two servers for
    one five-tuple; both match it and [getServer] selects the second.
    Adding the permission twice returns no error either time, and leaves the
    first server, which matches, with no permission for the peer and the
    second with one. *)
Lemma permittedOnEveryMatch_fails :
  reachable twiceA ∧
  match_ tupleA ∘ server_FiveTuple <$> twiceA !! 0%nat = Some true ∧
  match_ tupleA ∘ server_FiveTuple <$> twiceA !! 1%nat = Some true ∧
  getServer twiceA tupleA = Some 1%nat ∧
  (AddPermission twiceA tupleA (permission 300)).2 = None ∧
  (AddPermission (AddPermission twiceA tupleA (permission 300)).1
     tupleA (permission 300)).2 = None ∧
  entriesFor (permission 300) ∘ permissions <$>
    (AddPermission (AddPermission twiceA tupleA (permission 300)).1
       tupleA (permission 300)).1 !! 0%nat = Some 0%nat ∧
  entriesFor (permission 300) ∘ permissions <$>
    (AddPermission (AddPermission twiceA tupleA (permission 300)).1
       tupleA (permission 300)).1 !! 1%nat = Some 1%nat ∧
  ¬ permittedOnEveryMatch twiceA tupleA (permission 300) (permission 300).
Proof.
  split; [apply Sample_twiceA_reachable|].
  repeat (split; [reflexivity|]).
  intros Hclaim.
  destruct (Hclaim 0%nat _ eq_refl eq_refl) as (s2 & Hs2 & Hone).
  vm_compute in Hs2. injection Hs2 as <-. vm_compute in Hone. discriminate.
Qed.

End SampleDuplicate.
